(** * Trim editor core of the web-audio sampler

    A shallow embedding of the trim-bar editor ([TrimbarsDrawer]), the
    pixel/time mapping ([utils.js]), the peak extraction
    ([WaveformDrawer.getPeaks]), the per-pad sample ([SoundSample]) and the
    two engine entry points that consume them ([SamplerEngine.playSound],
    [SamplerEngine.updateTrimBars]).

    Numbers.  A JavaScript number is modelled by a rational [Q]: the trim
    code only copies and compares pixel values, and the time mapping is
    stated up to [Qeq] ([==]), which is the exact arithmetic the floating
    point code approximates.  [NaN] and the infinities are outside the
    model.  [canvas.width] and [canvas.height] are [unsigned long] in the
    DOM, hence [N].

    Where a result of arithmetic is stored or drawn, the code is also given
    with the rounding of every operation made explicit ([Rounded]) and in
    binary64 itself ([Binary64]); the statements on time windows and on
    waveform bars say which arithmetic they are about. *)

From Stdlib Require Import QArith Qminmax Qabs Qfield Qround Reals Qreals Lqa.
From Stdlib Require Import ZArith NArith Arith Bool List String Lia.
From Stdlib Require PrimFloat.
From Equations Require Import Equations.
From stdpp Require Import base list.
Import ListNotations.

Local Open Scope Q_scope.

(** ** JavaScript comparisons and [Math] on rationals *)

Definition Qltb (a b : Q) : bool := negb (Qle_bool b a).
Definition Qgtb (a b : Q) : bool := Qltb b a.
Definition Qleb (a b : Q) : bool := Qle_bool a b.
Definition Qgeb (a b : Q) : bool := Qle_bool b a.

Definition N2Q (n : N) : Q := inject_Z (Z.of_N n).

Module Math.
Definition max (a b : Q) : Q := Qmax a b.
Definition min (a b : Q) : Q := Qmin a b.
Definition abs (a : Q) : Q := Qabs a.
End Math.

(** ** utils.js *)

(** [distance] is [Math.sqrt(dx * dx + dy * dy)], a real number; [distance2]
    is the argument of the square root. *)
Definition distance2 (x1 y1 x2 y2 : Q) : Q :=
  let dx := x2 - x1 in
  let dy := y2 - y1 in
  dx * dx + dy * dy.

Definition distance (x1 y1 x2 y2 : Q) : R :=
  sqrt (Q2R (distance2 x1 y1 x2 y2)).

(** The only use of [distance] is the test [distance(...) < 15].  The
    square root is increasing, so the test is decided on the squares
    ([distance_lt_iff] below). *)
Definition distance_lt (x1 y1 x2 y2 r : Q) : bool :=
  Qltb (distance2 x1 y1 x2 y2) (r * r).

Definition pixelToSeconds (x bufferDuration canvasWidth : Q) : Q :=
  (x / canvasWidth) * bufferDuration.

Definition secondsToPixel (seconds bufferDuration canvasWidth : Q) : Q :=
  (seconds / bufferDuration) * canvasWidth.

(** ** TrimbarsDrawer *)

Module TrimbarsDrawer.

Inductive Color := white | red.

Record Canvas := { width : N; height : N }.

Record MousePos := { mx : Q; my : Q }.

Record TrimBar := {
  x : Q;
  color : Color;
  selected : bool;
  dragged : bool
}.

Record t := {
  canvas : Canvas;
  leftTrimBar : TrimBar;
  rightTrimBar : TrimBar
}.

Definition cw (d : t) : Q := N2Q (width (canvas d)).

Definition set_x (b : TrimBar) (v : Q) : TrimBar :=
  {| x := v; color := color b; selected := selected b; dragged := dragged b |}.

Definition set_selected (b : TrimBar) (c : Color) (s : bool) : TrimBar :=
  {| x := x b; color := c; selected := s; dragged := dragged b |}.

Definition set_dragged (b : TrimBar) (v : bool) : TrimBar :=
  {| x := x b; color := color b; selected := selected b; dragged := v |}.

Definition with_left (d : t) (b : TrimBar) : t :=
  {| canvas := canvas d; leftTrimBar := b; rightTrimBar := rightTrimBar d |}.

Definition with_right (d : t) (b : TrimBar) : t :=
  {| canvas := canvas d; leftTrimBar := leftTrimBar d; rightTrimBar := b |}.

(** [constructor(canvas, leftTrimBarX = 0, rightTrimBarX = null)]: an
    omitted left position is 0, a [null] right position is the canvas
    width.  The positions are stored as given. *)
Definition new (c : Canvas) (leftTrimBarX rightTrimBarX : option Q) : t :=
  let leftX := match leftTrimBarX with Some v => v | None => 0 end in
  let rightX := match rightTrimBarX with Some v => v | None => N2Q (width c) end in
  {| canvas := c;
     leftTrimBar := {| x := leftX; color := white; selected := false; dragged := false |};
     rightTrimBar := {| x := rightX; color := white; selected := false; dragged := false |} |}.

Definition highlightTrimBarsWhenClose (d : t) (mousePos : MousePos) : t :=
  let distToLeftClose :=
    distance_lt (mx mousePos) (my mousePos) (x (leftTrimBar d) + 5) 8 15 in
  let d :=
    if distToLeftClose && negb (selected (rightTrimBar d))
    then with_left d (set_selected (leftTrimBar d) red true)
    else if negb (dragged (leftTrimBar d))
         then with_left d (set_selected (leftTrimBar d) white false)
         else d in
  let distToRightClose :=
    distance_lt (mx mousePos) (my mousePos) (x (rightTrimBar d) - 5) 8 15 in
  if distToRightClose && negb (selected (leftTrimBar d))
  then with_right d (set_selected (rightTrimBar d) red true)
  else if negb (dragged (rightTrimBar d))
       then with_right d (set_selected (rightTrimBar d) white false)
       else d.

Definition startDrag (d : t) : t :=
  let d :=
    if selected (leftTrimBar d)
    then with_left d (set_dragged (leftTrimBar d) true) else d in
  if selected (rightTrimBar d)
  then with_right d (set_dragged (rightTrimBar d) true) else d.

Definition stopDrag (d : t) : t :=
  let d :=
    if dragged (leftTrimBar d) then
      let l := leftTrimBar d in
      let l := {| x := x l; color := color l; selected := false; dragged := false |} in
      let d := with_left d l in
      if Qgtb (x (leftTrimBar d)) (x (rightTrimBar d))
      then with_left d (set_x (leftTrimBar d) (x (rightTrimBar d)))
      else d
    else d in
  if dragged (rightTrimBar d) then
    let r := rightTrimBar d in
    let r := {| x := x r; color := color r; selected := false; dragged := false |} in
    let d := with_right d r in
    if Qltb (x (rightTrimBar d)) (x (leftTrimBar d))
    then with_right d (set_x (rightTrimBar d) (x (leftTrimBar d)))
    else d
  else d.

(** The two [if (... .dragged)] blocks of [moveTrimBars], with the
    clamped pointer position already computed. *)
Definition moveDragged (d : t) (clampedX : Q) : t :=
  let d :=
    if dragged (leftTrimBar d) then
      if Qleb clampedX (x (rightTrimBar d))
      then with_left d (set_x (leftTrimBar d) clampedX)
      else d
    else d in
  if dragged (rightTrimBar d) then
    if Qgeb clampedX (x (leftTrimBar d))
    then with_right d (set_x (rightTrimBar d) clampedX)
    else d
  else d.

Definition moveTrimBars (d : t) (mousePos : MousePos) : t :=
  let d := highlightTrimBarsWhenClose d mousePos in
  let clampedX := Math.max 0 (Math.min (mx mousePos) (cw d)) in
  moveDragged d clampedX.

Definition getTrimPositions (d : t) : Q * Q :=
  (x (leftTrimBar d), x (rightTrimBar d)).

Definition setTrimPositions (d : t) (leftX rightX : Q) : t :=
  let d := with_left d (set_x (leftTrimBar d) (Math.max 0 (Math.min leftX (cw d)))) in
  let d := with_right d (set_x (rightTrimBar d) (Math.max 0 (Math.min rightX (cw d)))) in
  if Qgtb (x (leftTrimBar d)) (x (rightTrimBar d))
  then
    let l := x (leftTrimBar d) in
    let r := x (rightTrimBar d) in
    with_right (with_left d (set_x (leftTrimBar d) r)) (set_x (rightTrimBar d) l)
  else d.

Definition reset (d : t) : t :=
  let l := leftTrimBar d in
  let r := rightTrimBar d in
  {| canvas := canvas d;
     leftTrimBar := {| x := 0; color := color l; selected := false; dragged := false |};
     rightTrimBar := {| x := cw d; color := color r; selected := false; dragged := false |} |}.

Definition isDragging (d : t) : bool :=
  dragged (leftTrimBar d) || dragged (rightTrimBar d).

(** The mutating methods, as the events the GUI delivers to the drawer. *)
Inductive Op :=
| OpHighlight (p : MousePos)
| OpMove (p : MousePos)
| OpStartDrag
| OpStopDrag
| OpSetTrimPositions (leftX rightX : Q)
| OpReset.

Definition step (d : t) (o : Op) : t :=
  match o with
  | OpHighlight p => highlightTrimBarsWhenClose d p
  | OpMove p => moveTrimBars d p
  | OpStartDrag => startDrag d
  | OpStopDrag => stopDrag d
  | OpSetTrimPositions l r => setTrimPositions d l r
  | OpReset => reset d
  end.

Definition run (d : t) (ops : list Op) : t := fold_left step ops d.

(** States the methods can produce from a freshly constructed drawer. *)
Inductive reachable : t -> Prop :=
| reach_new c l r : reachable (new c l r)
| reach_step d o : reachable d -> reachable (step d o).

(** [0 <= leftPixel <= rightPixel <= surfaceWidth] *)
Definition trim_inv (d : t) : Prop :=
  0 <= x (leftTrimBar d) /\
  x (leftTrimBar d) <= x (rightTrimBar d) /\
  x (rightTrimBar d) <= cw d.

Definition both_selected (d : t) : bool :=
  selected (leftTrimBar d) && selected (rightTrimBar d).

End TrimbarsDrawer.

(** ** AudioBuffer (the decoded sample buffer, opaque to the sampler) *)

Module AudioBuffer.
(** [duration] in seconds and the samples of channel 0, which is what
    [getChannelData(0)] returns. *)
Record t := { duration : Q; channelData0 : list Q }.
End AudioBuffer.

(** ** WaveformDrawer.getPeaks *)

Module WaveformDrawer.

(** The inner [for (let j = start; j < end && j < totalSamples; j += step)]
    loop.  [step] is a positive integer, so [endIx - j] decreases.  A read
    outside the array is [undefined], whose absolute value is [NaN], and
    [NaN > peak] is false: the peak is kept. *)
Equations? scan (channelData : list Q) (endIx totalSamples : nat)
    (step : positive) (j : nat) (peak : Q) : Q by wf (endIx - j)%nat lt :=
  scan channelData endIx totalSamples step j peak with lt_dec j endIx => {
    | right _ := peak
    | left _ with lt_dec j totalSamples => {
      | right _ := peak
      | left _ :=
          let peak' :=
            match channelData !! j with
            | Some v => let val := Math.abs v in
                        if Qgtb val peak then val else peak
            | None => peak
            end in
          scan channelData endIx totalSamples step (j + Pos.to_nat step)%nat peak' } }.
Proof. pose proof (Pos2Nat.is_pos step). lia. Qed.

(** [Math.floor(totalSamples / displayWidth)] on non-negative integers. *)
Definition sampleSizeOf (totalSamples displayWidth : nat) : nat :=
  (totalSamples / displayWidth)%nat.

(** [this.sampleStep || Math.max(1, Math.floor(sampleSize / 10))]: a
    [null] (or zero) [sampleStep] is falsy and selects the default;
    [Math.max(1, n)] of a non-negative integer [n] is [Pos.of_nat n]. *)
Definition stepOf (sampleStep : option positive) (sampleSize : nat) : positive :=
  match sampleStep with
  | Some s => s
  | None => Pos.of_nat (sampleSize / 10)
  end.

(** The body of the outer loop: the peak pushed for pixel column [i]. *)
Definition columnPeak (channelData : list Q) (sampleSize : nat)
    (step : positive) (i : nat) : Q :=
  let totalSamples := length channelData in
  let start := (i * sampleSize)%nat in
  let endIx := (start + sampleSize)%nat in
  scan channelData endIx totalSamples step start 0.

Definition peaksOf (channelData : list Q) (displayWidth : nat)
    (sampleStep : option positive) : list Q :=
  let totalSamples := length channelData in
  let sampleSize := sampleSizeOf totalSamples displayWidth in
  let step := stepOf sampleStep sampleSize in
  map (columnPeak channelData sampleSize step) (seq 0 displayWidth).

Record t := {
  decodedAudioBuffer : option AudioBuffer.t;
  peaks : list Q;
  displayWidth : nat;
  displayHeight : nat;
  sampleStep : option positive
}.

Definition new : t :=
  {| decodedAudioBuffer := None; peaks := []; displayWidth := 0;
     displayHeight := 0; sampleStep := None |}.

(** [getPeaks()]; [None] is the [TypeError] of reading the channel of a
    [null] buffer. *)
Definition getPeaks (w : t) : option t :=
  match decodedAudioBuffer w with
  | None => None
  | Some b =>
      Some {| decodedAudioBuffer := decodedAudioBuffer w;
              peaks := peaksOf (AudioBuffer.channelData0 b) (displayWidth w) (sampleStep w);
              displayWidth := displayWidth w;
              displayHeight := displayHeight w;
              sampleStep := sampleStep w |}
  end.

Definition init (w : t) (b : AudioBuffer.t) (c : TrimbarsDrawer.Canvas)
    (step : option positive) : option t :=
  getPeaks {| decodedAudioBuffer := Some b; peaks := peaks w;
              displayWidth := N.to_nat (TrimbarsDrawer.width c);
              displayHeight := N.to_nat (TrimbarsDrawer.height c);
              sampleStep := step |}.

Definition getPeaksArray (w : t) : list Q := peaks w.

(** The sample indices the spec assigns to column [i]: [start],
    [start + step], [start + 2*step], ... inside
    [[i*sampleSize, (i+1)*sampleSize)], below the frame count. *)
Definition inColumn (frameCount sampleSize : nat) (step : positive)
    (i j : nat) : Prop :=
  (i * sampleSize <= j)%nat /\ (j < (i + 1) * sampleSize)%nat /\
  (j < frameCount)%nat /\
  exists k : nat, j = (i * sampleSize + k * Pos.to_nat step)%nat.

End WaveformDrawer.


(** ** Observable effects of the audio code *)

(** The arguments of [source.start]: [start(0)] plays the whole buffer,
    [start(0, offset, duration)] a window of it. *)
Inductive StartArgs :=
| StartFull
| StartWindow (offset duration : Q).

(** Where a buffer source is connected: the [destination] argument when it
    is truthy, otherwise [audioContext.destination]. *)
Inductive Destination :=
| ToMasterGain
| ToContextDestination.

Record BufferSource := {
  source_buffer : AudioBuffer.t;
  source_target : Destination;
  source_start : StartArgs
}.

Inductive Message :=
| MsgNotLoadedYet (name : string)
| MsgPlayingWindow (name : string) (from to : Q)
| MsgPlayingFull (name : string)
| MsgInvalidIndex (index : Z)
| MsgNoSoundAtPad (index : Z)
| MsgTrimUpdated (index : Z) (startOffset duration leftPixel rightPixel : Q).

(** A subscriber registered with [onPlay], [onProgress] or
    [onStateChange]; the closure itself is opaque. *)
Definition Callback := nat.

Inductive Effect :=
| ConsoleWarn (m : Message)
| ConsoleLog (m : Message)
| AudioStart (s : BufferSource)
| PlayEvent (cb : Callback) (index : Z)
| StateEvent (cb : Callback) (index : Z) (state : string)
| ProgressEvent (cb : Callback) (index : Z) (percentage : Q).

Inductive Exn :=
| TypeError (what : string).

(** How a call ends: it returns a value or throws. *)
Inductive Completion (A : Type) :=
| Returned (a : A)
| Thrown (e : Exn).
Arguments Returned {A} a.
Arguments Thrown {A} e.

(** The arguments of the [source.start] calls among the effects. *)
Definition startsOf (fx : list Effect) : list StartArgs :=
  flat_map (fun e => match e with
                     | AudioStart s => [source_start s]
                     | _ => []
                     end) fx.

Definition is_audio_start (e : Effect) : bool :=
  match e with AudioStart _ => true | _ => false end.

Definition is_event (e : Effect) : bool :=
  match e with
  | PlayEvent _ _ | StateEvent _ _ _ | ProgressEvent _ _ _ => true
  | _ => false
  end.

(** ** SoundSample *)

Module SoundSample.

Record t := {
  url : string;
  name : string;
  index : Z;
  decodedBuffer : option AudioBuffer.t;
  leftTrimPosition : Q;
  rightTrimPosition : Q;
  startOffset : Q;
  duration : Q;
  loaded : bool;
  loading : bool;
  loadProgress : Q;
  error : option string
}.

Definition new (url name : string) (index : Z) : t :=
  {| url := url; name := name; index := index;
     decodedBuffer := None;
     leftTrimPosition := 0; rightTrimPosition := 0;
     startOffset := 0; duration := 0;
     loaded := false; loading := false; loadProgress := 0;
     error := None |}.

(** The state [load] leaves after a successful decode of [b]. *)
Definition loadSucceeded (s : t) (b : AudioBuffer.t) : t :=
  {| url := url s; name := name s; index := index s;
     decodedBuffer := Some b;
     leftTrimPosition := leftTrimPosition s;
     rightTrimPosition := rightTrimPosition s;
     startOffset := startOffset s;
     duration := AudioBuffer.duration b;
     loaded := true; loading := false; loadProgress := 100;
     error := None |}.

Definition setTrimPositions (s : t) (leftX rightX canvasWidth : Q) : t :=
  let timed :=
    match decodedBuffer s with
    | Some b =>
        if Qgtb canvasWidth 0 then
          let totalDuration := AudioBuffer.duration b in
          Some ((leftX / canvasWidth) * totalDuration,
                ((rightX - leftX) / canvasWidth) * totalDuration)
        else None
    | None => None
    end in
  {| url := url s; name := name s; index := index s;
     decodedBuffer := decodedBuffer s;
     leftTrimPosition := leftX;
     rightTrimPosition := rightX;
     startOffset := match timed with Some (o, _) => o | None => startOffset s end;
     duration := match timed with Some (_, d) => d | None => duration s end;
     loaded := loaded s; loading := loading s; loadProgress := loadProgress s;
     error := error s |}.

Definition getTrimSettings (s : t) : Q * Q * Q * Q :=
  (startOffset s, duration s, leftTrimPosition s, rightTrimPosition s).

Definition isLoaded (s : t) : bool := loaded s.

(** [play(audioContext, destination)].  [hasContext] tells whether
    [audioContext] is an object: [createBufferSource] on [null] is a
    [TypeError].  [hasDestination] tells whether [destination] is truthy.
    The sample itself is not modified. *)
Definition play (s : t) (hasContext hasDestination : bool)
    : list Effect * Completion (option BufferSource) :=
  match loaded s, decodedBuffer s with
  | true, Some b =>
      if hasContext then
        let target := if hasDestination then ToMasterGain else ToContextDestination in
        if Qgtb (duration s) 0 && Qltb (duration s) (AudioBuffer.duration b) then
          let src := {| source_buffer := b; source_target := target;
                        source_start := StartWindow (startOffset s) (duration s) |} in
          ([AudioStart src;
            ConsoleLog (MsgPlayingWindow (name s) (startOffset s)
                          (startOffset s + duration s))],
           Returned (Some src))
        else
          let src := {| source_buffer := b; source_target := target;
                        source_start := StartFull |} in
          ([AudioStart src; ConsoleLog (MsgPlayingFull (name s))],
           Returned (Some src))
      else ([], Thrown (TypeError "audioContext is null"))
  | _, _ => ([ConsoleWarn (MsgNotLoadedYet (name s))], Returned None)
  end.

Definition reset (s : t) : t :=
  {| url := url s; name := name s; index := index s;
     decodedBuffer := None;
     leftTrimPosition := 0; rightTrimPosition := 0;
     startOffset := 0; duration := 0;
     loaded := false; loading := false; loadProgress := 0;
     error := None |}.

End SoundSample.

(** ** SamplerEngine *)

Module SamplerEngine.

Record t := {
  hasAudioContext : bool;
  samples : list (option SoundSample.t);
  padCount : Z;
  progressCallbacks : list Callback;
  stateCallbacks : list Callback;
  playCallbacks : list Callback;
  hasMasterGain : bool;
  volume : Q
}.

(** What a method call leaves behind: the engine, the effects in the
    order they happened, and how the call ended. *)
Record Outcome := {
  engine : t;
  effects : list Effect;
  completion : Completion unit
}.

Definition new (padCount : nat) : t :=
  {| hasAudioContext := false;
     samples := replicate padCount None;
     padCount := Z.of_nat padCount;
     progressCallbacks := []; stateCallbacks := []; playCallbacks := [];
     hasMasterGain := false;
     volume := 1 |}.

Definition with_samples (e : t) (l : list (option SoundSample.t)) : t :=
  {| hasAudioContext := hasAudioContext e;
     samples := l;
     padCount := padCount e;
     progressCallbacks := progressCallbacks e;
     stateCallbacks := stateCallbacks e;
     playCallbacks := playCallbacks e;
     hasMasterGain := hasMasterGain e;
     volume := volume e |}.

(** [this.samples[index]]: [None] stands for [null] and [undefined],
    both falsy; an index that is not an array index reads [undefined]. *)
Definition sampleAt (e : t) (index : Z) : option SoundSample.t :=
  if (index <? 0)%Z then None
  else match samples e !! Z.to_nat index with
       | Some (Some s) => Some s
       | _ => None
       end.

Definition emitPlay (e : t) (index : Z) : list Effect :=
  map (fun cb => PlayEvent cb index) (playCallbacks e).

Definition playSound (e : t) (index : Z) : Outcome :=
  if (index <? 0)%Z || (index >=? padCount e)%Z then
    {| engine := e; effects := [ConsoleWarn (MsgInvalidIndex index)];
       completion := Returned tt |}
  else
    match sampleAt e index with
    | Some sample =>
        if SoundSample.isLoaded sample then
          match SoundSample.play sample (hasAudioContext e) (hasMasterGain e) with
          | (fx, Returned _) =>
              {| engine := e; effects := fx ++ emitPlay e index;
                 completion := Returned tt |}
          | (fx, Thrown ex) =>
              {| engine := e; effects := fx; completion := Thrown ex |}
          end
        else
          {| engine := e; effects := [ConsoleWarn (MsgNoSoundAtPad index)];
             completion := Returned tt |}
    | None =>
        {| engine := e; effects := [ConsoleWarn (MsgNoSoundAtPad index)];
           completion := Returned tt |}
    end.

Definition updateTrimBars (e : t) (index : Z) (leftX rightX canvasWidth : Q)
    : Outcome :=
  match sampleAt e index with
  | Some sample =>
      if SoundSample.isLoaded sample then
        let sample' := SoundSample.setTrimPositions sample leftX rightX canvasWidth in
        {| engine := with_samples e (<[Z.to_nat index := Some sample']> (samples e));
           effects :=
             [ConsoleLog (MsgTrimUpdated index
                (SoundSample.startOffset sample') (SoundSample.duration sample')
                (SoundSample.leftTrimPosition sample')
                (SoundSample.rightTrimPosition sample'))];
           completion := Returned tt |}
      else {| engine := e; effects := []; completion := Returned tt |}
  | None => {| engine := e; effects := []; completion := Returned tt |}
  end.

Definition getTrimSettings (e : t) (index : Z) : option (Q * Q * Q * Q) :=
  match sampleAt e index with
  | Some sample =>
      if SoundSample.isLoaded sample
      then Some (SoundSample.getTrimSettings sample) else None
  | None => None
  end.

End SamplerEngine.

(** ** Scenarios used by the properties below *)

Module Scenario.
Import TrimbarsDrawer.

Definition surface800 : Canvas := {| width := 800; height := 100 |}.

(** An 800 pixel surface, bars set to 100 and 300, the pointer brought
    onto the left grab point and the button pressed: the left handle is
    being dragged. *)
Definition draggingLeft : t :=
  run (new surface800 None None)
      [OpSetTrimPositions 100 300; OpMove {| mx := 105; my := 8 |}; OpStartDrag].

Definition pointerAt500 : MousePos := {| mx := 500; my := 8 |}.

(** A 20 pixel surface: the grab points (5, 8) and (15, 8) are both
    within 15 of the pointer at (10, 8). *)
Definition surface20 : Canvas := {| width := 20; height := 100 |}.
Definition betweenHandles : MousePos := {| mx := 10; my := 8 |}.

(** Six frames drawn on a three pixel wide surface. *)
Definition sixFrames : AudioBuffer.t :=
  {| AudioBuffer.duration := 4;
     AudioBuffer.channelData0 := [1#2; -(3#4); 1#4; -(1#8); 0; 1] |}.

Definition threeColumns : WaveformDrawer.t :=
  {| WaveformDrawer.decodedAudioBuffer := Some sixFrames;
     WaveformDrawer.peaks := [];
     WaveformDrawer.displayWidth := 3;
     WaveformDrawer.displayHeight := 100;
     WaveformDrawer.sampleStep := None |}.

(** A pad whose four second sample has been decoded. *)
Definition fourSeconds : AudioBuffer.t :=
  {| AudioBuffer.duration := 4; AudioBuffer.channelData0 := [0; 1; 0; -1] |}.

Definition kick : SoundSample.t :=
  SoundSample.loadSucceeded (SoundSample.new "sounds/kick.wav" "Kick" 0) fourSeconds.

(** A sample created by [loadSound] whose download has not finished. *)
Definition pendingSnare : SoundSample.t :=
  SoundSample.new "sounds/snare.wav" "Snare" 1.

(** Sixteen pads with one subscriber to play events: pad 0 is loaded,
    pad 1 is still loading, the others are empty. *)
Definition engine16 : SamplerEngine.t :=
  let e := SamplerEngine.new 16 in
  {| SamplerEngine.hasAudioContext := true;
     SamplerEngine.samples :=
       <[1%nat := Some pendingSnare]> (<[0%nat := Some kick]> (SamplerEngine.samples e));
     SamplerEngine.padCount := SamplerEngine.padCount e;
     SamplerEngine.progressCallbacks := [];
     SamplerEngine.stateCallbacks := [];
     SamplerEngine.playCallbacks := [7%nat];
     SamplerEngine.hasMasterGain := true;
     SamplerEngine.volume := 1 |}.

End Scenario.

(** * The rest of the trim editor and of the engine *)

(** ** utils.js, continued *)

Module Utils.

(** [clamp(value, min, max)] is [Math.min(Math.max(value, min), max)]. *)
Definition clamp (value min max : Q) : Q :=
  Math.min (Math.max value min) max.

(** The part of a [MouseEvent] and of [getBoundingClientRect()] that
    [getMousePos] reads. *)
Record MouseEvent := { clientX : Q; clientY : Q }.
Record Rect := { left : Q; top : Q }.

Definition getMousePos (rect : Rect) (event : MouseEvent) : TrimbarsDrawer.MousePos :=
  {| TrimbarsDrawer.mx := clientX event - left rect;
     TrimbarsDrawer.my := clientY event - top rect |}.

(** [a || b] on numbers: [0] is falsy. *)
Definition orElse (a b : Q) : Q := if Qeq_bool a 0 then b else a.

Definition nat2Q (n : nat) : Q := inject_Z (Z.of_nat n).

End Utils.

(** ** Arithmetic, operation by operation *)

(** A JavaScript number is a binary64 value, and an arithmetic operation
    returns the exact result rounded to the nearest binary64 value.  The
    finite binary64 values are rationals, so this rounding is a function
    [rnd : Q -> Q], and [Rounded] gives the arithmetic of the code with
    [rnd] applied after every operation.  Rounding to nearest is
    [monotone] and [idempotent], and it keeps the [representable] values:
    0 and 1, and every number the code reads from a canvas or from a
    buffer.  With the identity for [rnd] the operations are the exact ones
    of the definitions above.  Overflow to an infinity is outside the
    model; the quantities below are bounded by a buffer duration or by a
    canvas height. *)

Module Rounded.

Definition monotone (rnd : Q -> Q) : Prop :=
  forall a b, a <= b -> rnd a <= rnd b.

Definition representable (rnd : Q -> Q) (a : Q) : Prop := rnd a == a.

Definition idempotent (rnd : Q -> Q) : Prop :=
  forall a, representable rnd (rnd a).

Section Operations.

Variable rnd : Q -> Q.

Definition sub (a b : Q) : Q := rnd (a - b).
Definition mul (a b : Q) : Q := rnd (a * b).
Definition div (a b : Q) : Q := rnd (a / b).

(** [pixelToSeconds] of utils.js: [(x / canvasWidth) * bufferDuration]. *)
Definition pixelToSeconds (x bufferDuration canvasWidth : Q) : Q :=
  mul (div x canvasWidth) bufferDuration.

(** [SoundSample.setTrimPositions]. *)
Definition setTrimPositions (s : SoundSample.t) (leftX rightX canvasWidth : Q)
    : SoundSample.t :=
  let timed :=
    match SoundSample.decodedBuffer s with
    | Some b =>
        if Qgtb canvasWidth 0 then
          let totalDuration := AudioBuffer.duration b in
          Some (mul (div leftX canvasWidth) totalDuration,
                mul (div (sub rightX leftX) canvasWidth) totalDuration)
        else None
    | None => None
    end in
  {| SoundSample.url := SoundSample.url s;
     SoundSample.name := SoundSample.name s;
     SoundSample.index := SoundSample.index s;
     SoundSample.decodedBuffer := SoundSample.decodedBuffer s;
     SoundSample.leftTrimPosition := leftX;
     SoundSample.rightTrimPosition := rightX;
     SoundSample.startOffset :=
       match timed with Some (o, _) => o | None => SoundSample.startOffset s end;
     SoundSample.duration :=
       match timed with Some (_, d) => d | None => SoundSample.duration s end;
     SoundSample.loaded := SoundSample.loaded s;
     SoundSample.loading := SoundSample.loading s;
     SoundSample.loadProgress := SoundSample.loadProgress s;
     SoundSample.error := SoundSample.error s |}.

End Operations.

(** Exact arithmetic: nothing is rounded. *)
Definition exact (a : Q) : Q := a.

(** A rounding that does round, for the examples: to the nearest multiple
    of 1/1024, halves upwards.  (binary64 rounds to the nearest multiple of
    a power of two chosen by the magnitude of the result.) *)
Definition toGrid (a : Q) : Q := Qfloor (a * 1024 + (1#2)) # 1024.

End Rounded.

(** ** WaveformDrawer: [max] and [drawWave] *)

Module WaveformRender.

(** The value of the local [max] of [WaveformDrawer.max]: it starts at
    [-Infinity]. *)
Inductive Extended :=
| NegInfinity
| Finite (q : Q).

(** [values[i] > max] *)
Definition exceeds (v : Q) (m : Extended) : bool :=
  match m with
  | NegInfinity => true
  | Finite q => Qgtb v q
  end.

Definition max (values : list Q) : Extended :=
  fold_left (fun m v => if exceeds v m then Finite v else m) values NegInfinity.

(** The calls made on the 2D context. *)
Inductive DrawCmd :=
| ClearRect (x y w h : Q)
| Save
| Translate (x y : Q)
| FillStyle (c : string)
| StrokeStyle (c : string)
| FillRect (x y w h : Q)
| Restore.

(** [maxPeak > 0 ? h / (2 * maxPeak) : 0], each operation rounded by
    [rnd].  The divisor is not 0: doubling a positive binary64 value is
    exact. *)
Definition scaleOf (rnd : Q -> Q) (maxPeak : Extended) (h : Q) : Q :=
  match maxPeak with
  | Finite m => if Qgtb m 0 then Rounded.div rnd h (Rounded.mul rnd 2 m) else 0
  | NegInfinity => 0
  end.

(** [drawWave(startY = 0, height = null)], each operation rounded by
    [rnd].  The drawer record carries neither the canvas nor the colour:
    [hasCanvas] tells whether [this.canvas] is set and [color] is
    [this.color].  [None] is the early return after the warning; otherwise
    the calls on the context, in order. *)
Definition drawWave (rnd : Q -> Q) (w : WaveformDrawer.t) (hasCanvas : bool)
    (color : string) (startY : Q) (height : option Q) : option (list DrawCmd) :=
  if negb hasCanvas || (length (WaveformDrawer.peaks w) =? 0)%nat then None
  else
    let displayHeight := Utils.nat2Q (WaveformDrawer.displayHeight w) in
    let displayWidth := Utils.nat2Q (WaveformDrawer.displayWidth w) in
    let h := match height with
             | Some v => Utils.orElse v displayHeight
             | None => displayHeight
             end in
    let maxPeak := max (WaveformDrawer.peaks w) in
    let scale := scaleOf rnd maxPeak h in
    let halfHeight := Rounded.div rnd h 2 in
    Some ([ClearRect 0 0 displayWidth displayHeight;
           Save;
           Translate 0 startY;
           FillStyle color;
           StrokeStyle color]
          ++ imap (fun i peak =>
                     let scaledPeak := Rounded.mul rnd peak scale in
                     FillRect (Utils.nat2Q i) (Rounded.sub rnd halfHeight scaledPeak) 1
                       (Rounded.mul rnd scaledPeak 2))
                  (WaveformDrawer.peaks w)
          ++ [Restore]).

(** The bars among the calls: [(x, y, width, height)] of each [fillRect]. *)
Definition barsOf (cmds : list DrawCmd) : list (Q * Q * Q * Q) :=
  flat_map (fun c => match c with
                     | FillRect x y w h => [(x, y, w, h)]
                     | _ => []
                     end) cmds.

End WaveformRender.

(** ** The same arithmetic in binary64 *)

(** The numbers of the running code, as the kernel's binary64 values: the
    operations are those of IEEE 754, rounding to nearest, ties to even,
    as in JavaScript.  A decimal constant denotes the nearest binary64
    value, as a JavaScript literal does. *)

Module Binary64.
Import PrimFloat.
Local Open Scope float_scope.

(** [pixelToSeconds] of utils.js. *)
Definition pixelToSeconds (x bufferDuration canvasWidth : float) : float :=
  (x / canvasWidth) * bufferDuration.

(** The numbers of a [SoundSample]: the duration of the decoded buffer, if
    there is one, the two pixel positions and the window in seconds. *)
Record Sample := {
  bufferDuration : option float;
  leftTrimPosition : float;
  rightTrimPosition : float;
  startOffset : float;
  duration : float
}.

(** A sample after a successful decode of a buffer lasting [d] seconds. *)
Definition loadedSample (d : float) : Sample :=
  {| bufferDuration := Some d;
     leftTrimPosition := 0; rightTrimPosition := 0;
     startOffset := 0; duration := d |}.

(** [SoundSample.setTrimPositions]. *)
Definition setTrimPositions (s : Sample) (leftX rightX canvasWidth : float) : Sample :=
  let timed :=
    match bufferDuration s with
    | Some totalDuration =>
        if 0 <? canvasWidth then
          Some ((leftX / canvasWidth) * totalDuration,
                ((rightX - leftX) / canvasWidth) * totalDuration)
        else None
    | None => None
    end in
  {| bufferDuration := bufferDuration s;
     leftTrimPosition := leftX;
     rightTrimPosition := rightX;
     startOffset := match timed with Some (o, _) => o | None => startOffset s end;
     duration := match timed with Some (_, d) => d | None => duration s end |}.

(** The rectangle [drawWave] fills for one peak: its top and its height,
    for the height [h] and the greatest peak [maxPeak]. *)
Definition bar (h maxPeak peak : float) : float * float :=
  let scale := if 0 <? maxPeak then h / (2 * maxPeak) else 0 in
  let halfHeight := h / 2 in
  let scaledPeak := peak * scale in
  (halfHeight - scaledPeak, scaledPeak * 2).

End Binary64.

(** ** SamplerEngine, continued *)

Module EngineAdmin.
Import SamplerEngine.

Definition with_playCallbacks (e : t) (l : list Callback) : t :=
  {| hasAudioContext := hasAudioContext e;
     samples := samples e;
     padCount := padCount e;
     progressCallbacks := progressCallbacks e;
     stateCallbacks := stateCallbacks e;
     playCallbacks := l;
     hasMasterGain := hasMasterGain e;
     volume := volume e |}.

Definition with_volume (e : t) (v : Q) : t :=
  {| hasAudioContext := hasAudioContext e;
     samples := samples e;
     padCount := padCount e;
     progressCallbacks := progressCallbacks e;
     stateCallbacks := stateCallbacks e;
     playCallbacks := playCallbacks e;
     hasMasterGain := hasMasterGain e;
     volume := v |}.

(** [onPlay(callback)]: [push] appends. *)
Definition onPlay (e : t) (callback : Callback) : t :=
  with_playCallbacks e (playCallbacks e ++ [callback]).

(** [emitStateChange(index, state)], with the default [error = null]. *)
Definition emitStateChange (e : t) (index : Z) (state : string) : list Effect :=
  map (fun cb => StateEvent cb index state) (stateCallbacks e).

(** [emitProgress(index, percentage, loaded, total)]; the effect records
    the index and the percentage of each call. *)
Definition emitProgress (e : t) (index : Z) (percentage loaded total : Q)
    : list Effect :=
  map (fun cb => ProgressEvent cb index percentage) (progressCallbacks e).

Definition getSample (e : t) (index : Z) : option SoundSample.t :=
  sampleAt e index.

(** [playByMidiNote(midiNote, baseNote = 36)] *)
Definition playByMidiNote (e : t) (midiNote baseNote : Z) : Outcome :=
  let padIndex := (midiNote - baseNote)%Z in
  if (padIndex >=? 0)%Z && (padIndex <? padCount e)%Z
  then playSound e padIndex
  else {| engine := e; effects := []; completion := Returned tt |}.

(** [array[i] = v]: beyond the end the array grows, the holes reading
    [undefined]. *)
Definition arraySet {A} (l : list (option A)) (i : nat) (v : option A)
    : list (option A) :=
  if (i <? length l)%nat then <[i := v]> l
  else l ++ replicate (i - length l) None ++ [v].

(** One turn of the loop of [clearAll].  The sample object is reset and
    dropped from the array; the engine keeps no other reference to it. *)
Definition clearAllStep (acc : t * list Effect) (i : nat) : t * list Effect :=
  let (e, fx) := acc in
  (with_samples e (arraySet (samples e) i None),
   fx ++ emitStateChange e (Z.of_nat i) "empty"
      ++ emitProgress e (Z.of_nat i) 0 0 100).

(** [clearAll()]: the engine afterwards and the events emitted; the
    closing [console.log] is not recorded. *)
Definition clearAll (e : t) : t * list Effect :=
  fold_left clearAllStep (seq 0 (Z.to_nat (padCount e))) (e, []).

Definition clearSample (e : t) (index : Z) : t * list Effect :=
  match sampleAt e index with
  | Some _ =>
      (with_samples e (<[Z.to_nat index := None]> (samples e)),
       emitStateChange e index "empty" ++ emitProgress e index 0 0 100)
  | None => (e, [])
  end.

(** [setVolume(volume)]: the engine afterwards and the value written to
    [masterGain.gain.value], when there is a master gain. *)
Definition setVolume (e : t) (v : Q) : t * option Q :=
  let e := with_volume e (Math.max 0 (Math.min 1 v)) in
  (e, if hasMasterGain e then Some (volume e) else None).

Definition getVolume (e : t) : Q := volume e.

Definition isLoadedSlot (s : option SoundSample.t) : bool :=
  match s with
  | Some s => SoundSample.isLoaded s
  | None => false
  end.

Definition getLoadedCount (e : t) : nat :=
  length (List.filter isLoadedSlot (samples e)).

End EngineAdmin.

(** ** SamplerGUI: the handlers that drive the trim editor and the engine *)

Module SamplerGUI.

(** The part of the GUI the handlers below read and write.  The pad
    elements, the pixels of the two canvases and the animation frame are
    not part of it. *)
Record t := {
  engine : SamplerEngine.t;
  currentPadIndex : Z;
  waveformCanvas : TrimbarsDrawer.Canvas;
  trimCanvas : TrimbarsDrawer.Canvas;
  hasInfoDisplay : bool;
  waveformDrawer : WaveformDrawer.t;
  trimDrawer : option TrimbarsDrawer.t
}.

(** What a handler does besides changing the state. *)
Inductive GuiEffect :=
| FromEngine (e : Effect)
| WarnCannotSwitch (index : Z)
| CursorStyle (style : string)
| InfoShown (name : string) (bufferDuration startOffset duration : Q).

Record Outcome := {
  gui : t;
  effects : list GuiEffect;
  completion : Completion unit
}.

Definition with_engine (g : t) (e : SamplerEngine.t) : t :=
  {| engine := e; currentPadIndex := currentPadIndex g;
     waveformCanvas := waveformCanvas g; trimCanvas := trimCanvas g;
     hasInfoDisplay := hasInfoDisplay g; waveformDrawer := waveformDrawer g;
     trimDrawer := trimDrawer g |}.

Definition with_currentPadIndex (g : t) (i : Z) : t :=
  {| engine := engine g; currentPadIndex := i;
     waveformCanvas := waveformCanvas g; trimCanvas := trimCanvas g;
     hasInfoDisplay := hasInfoDisplay g; waveformDrawer := waveformDrawer g;
     trimDrawer := trimDrawer g |}.

Definition with_waveformDrawer (g : t) (w : WaveformDrawer.t) : t :=
  {| engine := engine g; currentPadIndex := currentPadIndex g;
     waveformCanvas := waveformCanvas g; trimCanvas := trimCanvas g;
     hasInfoDisplay := hasInfoDisplay g; waveformDrawer := w;
     trimDrawer := trimDrawer g |}.

Definition with_trimDrawer (g : t) (d : option TrimbarsDrawer.t) : t :=
  {| engine := engine g; currentPadIndex := currentPadIndex g;
     waveformCanvas := waveformCanvas g; trimCanvas := trimCanvas g;
     hasInfoDisplay := hasInfoDisplay g; waveformDrawer := waveformDrawer g;
     trimDrawer := d |}.

(** [updateInfo(sample)]: reading [buffer.duration] of a sample without a
    decoded buffer is a [TypeError]. *)
Definition updateInfo (g : t) (sample : option SoundSample.t)
    : list GuiEffect * Completion unit :=
  if negb (hasInfoDisplay g) then ([], Returned tt)
  else match sample with
       | None => ([], Returned tt)
       | Some s =>
           match SoundSample.decodedBuffer s with
           | None => ([], Thrown (TypeError "buffer is null"))
           | Some b =>
               ([InfoShown (SoundSample.name s) (AudioBuffer.duration b)
                           (SoundSample.startOffset s) (SoundSample.duration s)],
                Returned tt)
           end
       end.

(** [clearCanvases()] *)
Definition clearCanvases (g : t) : t := with_trimDrawer g None.

(** [drawWaveform(sample)].  [init] stores its arguments before it
    computes the peaks, so a [null] buffer leaves a drawer without buffer
    and throws. *)
Definition drawWaveform (g : t) (sample : SoundSample.t) : t * Completion unit :=
  if negb (SoundSample.isLoaded sample) then (g, Returned tt)
  else
    match SoundSample.decodedBuffer sample with
    | Some b =>
        match WaveformDrawer.init (waveformDrawer g) b (waveformCanvas g) None with
        | Some w => (with_waveformDrawer g w, Returned tt)
        | None => (g, Thrown (TypeError "decodedAudioBuffer is null"))
        end
    | None =>
        let w := waveformDrawer g in
        (with_waveformDrawer g
           {| WaveformDrawer.decodedAudioBuffer := None;
              WaveformDrawer.peaks := WaveformDrawer.peaks w;
              WaveformDrawer.displayWidth :=
                N.to_nat (TrimbarsDrawer.width (waveformCanvas g));
              WaveformDrawer.displayHeight :=
                N.to_nat (TrimbarsDrawer.height (waveformCanvas g));
              WaveformDrawer.sampleStep := None |},
         Thrown (TypeError "decodedAudioBuffer is null"))
    end.

(** [setupTrimBars(sample)]: the drawer is rebuilt from the positions
    stored on the sample, [0] and the canvas width standing in for falsy
    values. *)
Definition setupTrimBars (g : t) (sample : SoundSample.t) : t :=
  let '(_, _, leftPixel, rightPixel) := SoundSample.getTrimSettings sample in
  let leftX := Utils.orElse leftPixel 0 in
  let rightX := Utils.orElse rightPixel (N2Q (TrimbarsDrawer.width (trimCanvas g))) in
  with_trimDrawer g (Some (TrimbarsDrawer.new (trimCanvas g) (Some leftX) (Some rightX))).

Definition switchToPad (g : t) (index : Z) : Outcome :=
  match EngineAdmin.getSample (engine g) index with
  | Some sample =>
      if SoundSample.isLoaded sample then
        let g := clearCanvases g in
        let g := with_currentPadIndex g index in
        match drawWaveform g sample with
        | (g, Thrown ex) => {| gui := g; effects := []; completion := Thrown ex |}
        | (g, Returned _) =>
            let g := setupTrimBars g sample in
            let '(fx, c) := updateInfo g (Some sample) in
            {| gui := g; effects := fx; completion := c |}
        end
      else {| gui := g; effects := [WarnCannotSwitch index]; completion := Returned tt |}
  | None => {| gui := g; effects := [WarnCannotSwitch index]; completion := Returned tt |}
  end.

Definition handlePadClick (g : t) (index : Z) : Outcome :=
  match EngineAdmin.getSample (engine g) index with
  | Some sample =>
      if SoundSample.isLoaded sample then
        let o := SamplerEngine.playSound (engine g) index in
        let g := with_engine g (SamplerEngine.engine o) in
        let fx := map FromEngine (SamplerEngine.effects o) in
        match SamplerEngine.completion o with
        | Thrown ex => {| gui := g; effects := fx; completion := Thrown ex |}
        | Returned _ =>
            let o' := switchToPad g index in
            {| gui := gui o'; effects := fx ++ effects o'; completion := completion o' |}
        end
      else {| gui := g; effects := []; completion := Returned tt |}
  | None => {| gui := g; effects := []; completion := Returned tt |}
  end.

(** The [mousemove] listener of the trim canvas. *)
Definition onMouseMove (g : t) (rect : Utils.Rect) (e : Utils.MouseEvent) : Outcome :=
  match trimDrawer g with
  | None => {| gui := g; effects := []; completion := Returned tt |}
  | Some d =>
      let d := TrimbarsDrawer.moveTrimBars d (Utils.getMousePos rect e) in
      {| gui := with_trimDrawer g (Some d);
         effects := [CursorStyle (if TrimbarsDrawer.isDragging d
                                  then "ew-resize" else "default")];
         completion := Returned tt |}
  end.

(** The [mousedown] listener. *)
Definition onMouseDown (g : t) : Outcome :=
  match trimDrawer g with
  | None => {| gui := g; effects := []; completion := Returned tt |}
  | Some d =>
      {| gui := with_trimDrawer g (Some (TrimbarsDrawer.startDrag d));
         effects := []; completion := Returned tt |}
  end.

(** The [mouseup] listener: release, store the positions on the current
    pad, refresh the info panel. *)
Definition onMouseUp (g : t) : Outcome :=
  match trimDrawer g with
  | None => {| gui := g; effects := []; completion := Returned tt |}
  | Some d =>
      let d := TrimbarsDrawer.stopDrag d in
      let g := with_trimDrawer g (Some d) in
      let '(leftX, rightX) := TrimbarsDrawer.getTrimPositions d in
      let o := SamplerEngine.updateTrimBars (engine g) (currentPadIndex g)
                 leftX rightX (N2Q (TrimbarsDrawer.width (trimCanvas g))) in
      let g := with_engine g (SamplerEngine.engine o) in
      let fx := map FromEngine (SamplerEngine.effects o) in
      match EngineAdmin.getSample (engine g) (currentPadIndex g) with
      | Some sample =>
          let '(fx', c) := updateInfo g (Some sample) in
          {| gui := g; effects := fx ++ fx'; completion := c |}
      | None => {| gui := g; effects := fx; completion := Returned tt |}
      end
  end.

(** The [mouseleave] listener. *)
Definition onMouseLeave (g : t) : Outcome :=
  match trimDrawer g with
  | None => {| gui := g; effects := []; completion := Returned tt |}
  | Some d =>
      {| gui := with_trimDrawer g (Some (TrimbarsDrawer.stopDrag d));
         effects := []; completion := Returned tt |}
  end.

(** [handleMIDIMessage(event)] on [event.data]; a missing byte reads
    [undefined], which is neither [144] nor greater than [0]. *)
Definition handleMIDIMessage (g : t) (data : list Z) : Outcome :=
  match data with
  | command :: note :: velocity :: _ =>
      if (command =? 144)%Z && (velocity >? 0)%Z then
        let o := EngineAdmin.playByMidiNote (engine g) note 36 in
        {| gui := with_engine g (SamplerEngine.engine o);
           effects := map FromEngine (SamplerEngine.effects o);
           completion := SamplerEngine.completion o |}
      else {| gui := g; effects := []; completion := Returned tt |}
  | _ => {| gui := g; effects := []; completion := Returned tt |}
  end.

(** The events the trim canvas and the pads deliver. *)
Inductive Event :=
| MouseMove (rect : Utils.Rect) (e : Utils.MouseEvent)
| MouseDown
| MouseUp
| MouseLeave
| SwitchToPad (index : Z)
| PadClick (index : Z).

Definition handle (g : t) (ev : Event) : Outcome :=
  match ev with
  | MouseMove rect e => onMouseMove g rect e
  | MouseDown => onMouseDown g
  | MouseUp => onMouseUp g
  | MouseLeave => onMouseLeave g
  | SwitchToPad index => switchToPad g index
  | PadClick index => handlePadClick g index
  end.

(** The stored pixel positions of a sample are ordered inside the trim
    canvas. *)
Definition positionsOk (g : t) (s : SoundSample.t) : Prop :=
  0 <= SoundSample.leftTrimPosition s /\
  SoundSample.leftTrimPosition s <= SoundSample.rightTrimPosition s /\
  SoundSample.rightTrimPosition s <= N2Q (TrimbarsDrawer.width (trimCanvas g)).

(** The drawer, when there is one, is on the trim canvas and ordered, and
    so are the positions stored on every sample of the engine. *)
Definition consistent (g : t) : Prop :=
  (forall d, trimDrawer g = Some d ->
     TrimbarsDrawer.canvas d = trimCanvas g /\ TrimbarsDrawer.trim_inv d) /\
  (forall (i : nat) s, SamplerEngine.samples (engine g) !! i = Some (Some s) ->
     positionsOk g s).

End SamplerGUI.

(** ** Flags of the two trim handles *)

Definition isRed (c : TrimbarsDrawer.Color) : bool :=
  match c with
  | TrimbarsDrawer.red => true
  | TrimbarsDrawer.white => false
  end.

(** A dragged handle is selected, a selected handle is red, and the two
    handles are not selected together. *)
Definition flagsOk (d : TrimbarsDrawer.t) : bool :=
  let l := TrimbarsDrawer.leftTrimBar d in
  let r := TrimbarsDrawer.rightTrimBar d in
  implb (TrimbarsDrawer.dragged l) (TrimbarsDrawer.selected l) &&
  implb (TrimbarsDrawer.dragged r) (TrimbarsDrawer.selected r) &&
  implb (TrimbarsDrawer.selected l) (isRed (TrimbarsDrawer.color l)) &&
  implb (TrimbarsDrawer.selected r) (isRed (TrimbarsDrawer.color r)) &&
  negb (TrimbarsDrawer.selected l && TrimbarsDrawer.selected r).

(** ** Further scenarios *)

Module Cases.

(** A drawer after [init] on a 3 by 100 canvas. *)
Definition drawnWave : WaveformDrawer.t :=
  {| WaveformDrawer.decodedAudioBuffer := Some Scenario.sixFrames;
     WaveformDrawer.peaks := [3#4; 1#4; 1];
     WaveformDrawer.displayWidth := 3;
     WaveformDrawer.displayHeight := 100;
     WaveformDrawer.sampleStep := None |}.

(** The GUI showing pad 0 of [Scenario.engine16], the left handle being
    dragged. *)
Definition editingKick : SamplerGUI.t :=
  {| SamplerGUI.engine := Scenario.engine16;
     SamplerGUI.currentPadIndex := 0;
     SamplerGUI.waveformCanvas := Scenario.surface800;
     SamplerGUI.trimCanvas := Scenario.surface800;
     SamplerGUI.hasInfoDisplay := true;
     SamplerGUI.waveformDrawer := WaveformDrawer.new;
     SamplerGUI.trimDrawer := Some Scenario.draggingLeft |}.

(** The same GUI when the current pad is pad 1, whose sample is still
    being loaded. *)
Definition editingPending : SamplerGUI.t :=
  SamplerGUI.with_currentPadIndex editingKick 1.

End Cases.

(** * Properties *)


(** ** Comparisons and clamping *)

Lemma Qltb_true a b : Qltb a b = true <-> a < b.
Proof.
  unfold Qltb. rewrite negb_true_iff, <- not_true_iff_false, Qle_bool_iff.
  split; [apply Qnot_le_lt | apply Qlt_not_le].
Qed.

Lemma Qltb_false a b : Qltb a b = false <-> b <= a.
Proof. unfold Qltb. rewrite negb_false_iff. apply Qle_bool_iff. Qed.

Lemma Qleb_true a b : Qleb a b = true <-> a <= b.
Proof. apply Qle_bool_iff. Qed.

Lemma Qleb_false a b : Qleb a b = false <-> b < a.
Proof.
  unfold Qleb. rewrite <- not_true_iff_false, Qle_bool_iff.
  split; [apply Qnot_le_lt | apply Qlt_not_le].
Qed.

(** Turn the boolean tests of the embedding into order facts. *)
Ltac qprop :=
  unfold Qgtb, Qgeb in *;
  repeat match goal with
  | H : Qltb _ _ = true |- _ => apply Qltb_true in H
  | H : Qltb _ _ = false |- _ => apply Qltb_false in H
  | H : Qleb _ _ = true |- _ => apply Qleb_true in H
  | H : Qleb _ _ = false |- _ => apply Qleb_false in H
  | H : Qle_bool _ _ = true |- _ => apply Qleb_true in H
  | H : Qle_bool _ _ = false |- _ => apply Qleb_false in H
  end.

Lemma N2Q_nonneg n : 0 <= N2Q n.
Proof.
  unfold N2Q. change 0 with (inject_Z 0). rewrite <- Zle_Qle. lia.
Qed.

Lemma clamp_bounds v w :
  0 <= w -> 0 <= Math.max 0 (Math.min v w) /\ Math.max 0 (Math.min v w) <= w.
Proof.
  intros Hw. unfold Math.max, Math.min. split.
  - apply Q.le_max_l.
  - apply Q.max_lub; [exact Hw | apply Q.le_min_r].
Qed.

Lemma clamp_mono a b w :
  a <= b -> Math.max 0 (Math.min a w) <= Math.max 0 (Math.min b w).
Proof.
  intros Hab. unfold Math.max, Math.min.
  apply Q.max_le_compat_l, Q.min_le_compat_r, Hab.
Qed.

(** ** The distance test *)

Lemma distance2_nonneg x1 y1 x2 y2 : 0 <= distance2 x1 y1 x2 y2.
Proof.
  unfold distance2. cbv zeta.
  generalize (x2 - x1) as dx. generalize (y2 - y1) as dy. intros dy dx.
  nra.
Qed.

Lemma distance_lt_iff x1 y1 x2 y2 r :
  0 <= r ->
  distance_lt x1 y1 x2 y2 r = true <-> (distance x1 y1 x2 y2 < Q2R r)%R.
Proof.
  intros Hr. unfold distance_lt, distance. rewrite Qltb_true.
  pose proof (distance2_nonneg x1 y1 x2 y2) as Hs. revert Hs.
  generalize (distance2 x1 y1 x2 y2) as s. intros s Hs.
  apply Qle_Rle in Hs, Hr. rewrite RMicromega.Q2R_0 in Hs, Hr.
  rewrite <- (sqrt_square (Q2R r)) at 1 by exact Hr.
  rewrite <- Q2R_mult.
  split.
  - intros H. apply Qlt_Rlt in H. apply sqrt_lt_1_alt. split; assumption.
  - intros H. apply sqrt_lt_0_alt in H. apply Rlt_Qlt, H.
Qed.

Lemma distance_lt_15 x1 y1 x2 y2 :
  distance_lt x1 y1 x2 y2 15 = true <-> (distance x1 y1 x2 y2 < 15)%R.
Proof.
  rewrite distance_lt_iff by (apply Qle_bool_iff; reflexivity).
  replace (Q2R 15) with 15%R; [reflexivity|].
  unfold Q2R. cbn [Qnum Qden]. rewrite Rinv_1, Rmult_1_r. reflexivity.
Qed.

(** ** Trim bars: the ordering invariant *)

Import TrimbarsDrawer.

(** Reduce record projections and field updates only. *)
Ltac rsimpl :=
  cbn [x color selected dragged canvas leftTrimBar rightTrimBar width height
       with_left with_right set_x set_selected set_dragged step] in *.

Lemma highlight_x d p :
  x (leftTrimBar (highlightTrimBarsWhenClose d p)) = x (leftTrimBar d) /\
  x (rightTrimBar (highlightTrimBarsWhenClose d p)) = x (rightTrimBar d) /\
  canvas (highlightTrimBarsWhenClose d p) = canvas d /\
  dragged (leftTrimBar (highlightTrimBarsWhenClose d p)) = dragged (leftTrimBar d) /\
  dragged (rightTrimBar (highlightTrimBarsWhenClose d p)) = dragged (rightTrimBar d).
Proof.
  unfold highlightTrimBarsWhenClose.
  repeat match goal with
  | |- context [if ?b then _ else _] => destruct b
  end; rsimpl; auto.
Qed.

Lemma moveDragged_cases h cx :
  moveDragged h cx = h \/
  (dragged (leftTrimBar h) = true /\ cx <= x (rightTrimBar h) /\
   (moveDragged h cx = with_left h (set_x (leftTrimBar h) cx) \/
    dragged (rightTrimBar h) = true /\
    moveDragged h cx =
      with_right (with_left h (set_x (leftTrimBar h) cx))
                 (set_x (rightTrimBar h) cx))) \/
  (dragged (rightTrimBar h) = true /\ x (leftTrimBar h) <= cx /\
   moveDragged h cx = with_right h (set_x (rightTrimBar h) cx)).
Proof.
  destruct h as [c [xl cl sl dl] [xr cr sr dr]].
  unfold moveDragged. rsimpl.
  destruct dl; [destruct (Qleb cx xr) eqn:T1|]; rsimpl;
    (destruct dr;
     [match goal with |- context [Qgeb ?a ?b] => destruct (Qgeb a b) eqn:T2 end|]);
    rsimpl; qprop; auto 8.
Qed.

Lemma moveTrimBars_canvas d p : canvas (moveTrimBars d p) = canvas d.
Proof.
  unfold moveTrimBars. cbv zeta.
  destruct (highlight_x d p) as (_ & _ & <- & _).
  generalize (highlightTrimBarsWhenClose d p) as h. intros h.
  generalize (Math.max 0 (Math.min (mx p) (cw h))) as cx. intros cx.
  destruct (moveDragged_cases h cx) as [->|[(_ & _ & [->|(_ & ->)])|(_ & _ & ->)]];
    reflexivity.
Qed.

Lemma startDrag_canvas d : canvas (startDrag d) = canvas d.
Proof.
  destruct d as [c [xl cl sl dl] [xr cr sr dr]].
  unfold startDrag. rsimpl. destruct sl, sr; reflexivity.
Qed.

Lemma stopDrag_canvas d : canvas (stopDrag d) = canvas d.
Proof.
  destruct d as [c [xl cl sl dl] [xr cr sr dr]].
  unfold stopDrag. rsimpl.
  destruct dl; rsimpl; [destruct (Qgtb xl xr)|]; rsimpl;
    (destruct dr; rsimpl;
     [match goal with |- context [Qltb ?a ?b] => destruct (Qltb a b) end|]);
    reflexivity.
Qed.

Lemma setTrimPositions_canvas d a b : canvas (setTrimPositions d a b) = canvas d.
Proof.
  unfold setTrimPositions. cbv zeta.
  match goal with |- context [Qgtb ?a ?b] => destruct (Qgtb a b) end;
    reflexivity.
Qed.

Lemma step_canvas d o : canvas (step d o) = canvas d.
Proof.
  destruct o.
  - apply highlight_x.
  - apply moveTrimBars_canvas.
  - apply startDrag_canvas.
  - apply stopDrag_canvas.
  - apply setTrimPositions_canvas.
  - reflexivity.
Qed.

Lemma highlight_inv d p : trim_inv d -> trim_inv (highlightTrimBarsWhenClose d p).
Proof.
  unfold trim_inv, cw.
  destruct (highlight_x d p) as (-> & -> & -> & _). auto.
Qed.

Lemma moveDragged_inv h cx :
  0 <= cx -> cx <= cw h -> trim_inv h -> trim_inv (moveDragged h cx).
Proof.
  intros H0 Hw (Hl & Hlr & Hr).
  destruct (moveDragged_cases h cx)
    as [->|[(_ & T & [->|(_ & ->)])|(_ & T & ->)]];
    unfold trim_inv, cw in *; rsimpl; repeat split;
    try assumption; try apply Qle_refl.
Qed.

Lemma moveTrimBars_inv d p : trim_inv d -> trim_inv (moveTrimBars d p).
Proof.
  intros H. apply (highlight_inv d p) in H.
  unfold moveTrimBars. cbv zeta. revert H.
  generalize (highlightTrimBarsWhenClose d p) as h. intros h H.
  apply moveDragged_inv; [apply clamp_bounds, N2Q_nonneg ..|exact H].
Qed.

Lemma startDrag_inv d : trim_inv d -> trim_inv (startDrag d).
Proof.
  unfold startDrag, trim_inv, cw.
  repeat match goal with
  | |- context [if ?b then _ else _] => destruct b
  end; rsimpl; auto.
Qed.

Lemma stopDrag_ordered d :
  x (leftTrimBar d) <= x (rightTrimBar d) ->
  x (leftTrimBar (stopDrag d)) = x (leftTrimBar d) /\
  x (rightTrimBar (stopDrag d)) = x (rightTrimBar d).
Proof.
  intros Hlr. unfold stopDrag.
  destruct (dragged (leftTrimBar d)); rsimpl.
  - destruct (Qgtb (x (leftTrimBar d)) (x (rightTrimBar d))) eqn:T1; rsimpl.
    + qprop. exfalso. eapply Qlt_not_le; eauto.
    + destruct (dragged (rightTrimBar d)); rsimpl; auto.
      destruct (Qltb (x (rightTrimBar d)) (x (leftTrimBar d))) eqn:T2; rsimpl; auto.
      qprop. exfalso. eapply Qlt_not_le; eauto.
  - destruct (dragged (rightTrimBar d)); rsimpl; auto.
    destruct (Qltb (x (rightTrimBar d)) (x (leftTrimBar d))) eqn:T2; rsimpl; auto.
    qprop. exfalso. eapply Qlt_not_le; eauto.
Qed.

Lemma stopDrag_inv d : trim_inv d -> trim_inv (stopDrag d).
Proof.
  intros (Hl & Hlr & Hr). unfold trim_inv, cw.
  destruct (stopDrag_ordered d Hlr) as [-> ->].
  rewrite stopDrag_canvas. auto.
Qed.

Lemma setTrimPositions_unfold d a b :
  setTrimPositions d a b =
  let cl := Math.max 0 (Math.min a (cw d)) in
  let cr := Math.max 0 (Math.min b (cw d)) in
  {| canvas := canvas d;
     leftTrimBar := set_x (leftTrimBar d) (if Qgtb cl cr then cr else cl);
     rightTrimBar := set_x (rightTrimBar d) (if Qgtb cl cr then cl else cr) |}.
Proof.
  unfold setTrimPositions. cbv zeta. rsimpl.
  change (cw (with_left d (set_x (leftTrimBar d) (Math.max 0 (Math.min a (cw d))))))
    with (cw d).
  generalize (Math.max 0 (Math.min a (cw d))) as cl.
  generalize (Math.max 0 (Math.min b (cw d))) as cr.
  intros cr cl. destruct (Qgtb cl cr); reflexivity.
Qed.

Lemma setTrimPositions_inv d a b : trim_inv (setTrimPositions d a b).
Proof.
  rewrite setTrimPositions_unfold. cbv zeta.
  destruct (clamp_bounds a (cw d) (N2Q_nonneg _)) as [Ha0 Haw].
  destruct (clamp_bounds b (cw d) (N2Q_nonneg _)) as [Hb0 Hbw].
  revert Ha0 Haw Hb0 Hbw.
  generalize (Math.max 0 (Math.min a (cw d))) as cl.
  generalize (Math.max 0 (Math.min b (cw d))) as cr.
  intros cr cl Ha0 Haw Hb0 Hbw.
  unfold trim_inv, cw in *. rsimpl.
  destruct (Qgtb cl cr) eqn:T; qprop; repeat split; auto using Qlt_le_weak.
Qed.

Lemma reset_inv d : trim_inv (reset d).
Proof.
  unfold reset, trim_inv, cw. rsimpl.
  repeat split; try apply Qle_refl; apply N2Q_nonneg.
Qed.

Lemma new_default_inv c : trim_inv (new c None None).
Proof.
  unfold new, trim_inv, cw. rsimpl.
  repeat split; try apply Qle_refl; apply N2Q_nonneg.
Qed.

Lemma step_inv d o : trim_inv d -> trim_inv (step d o).
Proof.
  destruct o; rsimpl; intros H.
  - now apply highlight_inv.
  - now apply moveTrimBars_inv.
  - now apply startDrag_inv.
  - now apply stopDrag_inv.
  - apply setTrimPositions_inv.
  - apply reset_inv.
Qed.

(** C1.  From the initial trim state (left bar at 0, right bar at the
    surface width, both handles idle), after every sequence of trim-bar
    operations (hover update, pointer move, drag start, drag release,
    programmatic [setTrimPositions], reset) the drawer satisfies
    [0 <= leftPixel <= rightPixel <= surfaceWidth]; every prefix of a
    sequence is a sequence, so the invariant holds after each operation. *)
Theorem trim_invariant_from_initial (c : Canvas) (ops : list Op) :
  trim_inv (run (new c None None) ops).
Proof.
  unfold run.
  generalize (new_default_inv c).
  generalize (new c None None) as d.
  induction ops as [|o ops IH]; intros d Hd; rsimpl.
  - exact Hd.
  - apply IH, step_inv, Hd.
Qed.

(** C4.  [setTrimPositions(leftX, rightX)] is total; it stores the two
    arguments clamped to [[0, surfaceWidth]], exchanged when
    [leftX > rightX], so that afterwards
    [0 <= leftPixel <= rightPixel <= surfaceWidth], whatever the order or
    range of the arguments; nothing else of the drawer changes. *)
Theorem setTrimPositions_clamps_and_orders (d : t) (leftX rightX : Q) :
  let W := cw d in
  let d' := setTrimPositions d leftX rightX in
  let cl := Math.max 0 (Math.min leftX W) in
  let cr := Math.max 0 (Math.min rightX W) in
  (0 <= x (leftTrimBar d') /\
   x (leftTrimBar d') <= x (rightTrimBar d') /\
   x (rightTrimBar d') <= W) /\
  (if Qgtb leftX rightX
   then x (leftTrimBar d') == cr /\ x (rightTrimBar d') == cl
   else x (leftTrimBar d') == cl /\ x (rightTrimBar d') == cr) /\
  canvas d' = canvas d /\
  selected (leftTrimBar d') = selected (leftTrimBar d) /\
  dragged (leftTrimBar d') = dragged (leftTrimBar d) /\
  selected (rightTrimBar d') = selected (rightTrimBar d) /\
  dragged (rightTrimBar d') = dragged (rightTrimBar d).
Proof.
  intros W d' cl cr.
  split.
  { pose proof (setTrimPositions_inv d leftX rightX) as H.
    unfold trim_inv in H. fold d' in H.
    replace (cw d') with W in H; [exact H |].
    unfold cw, d'. now rewrite setTrimPositions_canvas. }
  assert (Hmono1 : leftX <= rightX -> cl <= cr) by apply clamp_mono.
  assert (Hmono2 : rightX <= leftX -> cr <= cl) by apply clamp_mono.
  unfold d'. rewrite setTrimPositions_unfold. cbv zeta. fold W. fold cl cr.
  clearbody cl cr. rsimpl.
  destruct (Qgtb cl cr) eqn:T; destruct (Qgtb leftX rightX) eqn:U; qprop.
  - repeat split; reflexivity.
  - exfalso. apply Hmono1 in U. eapply Qlt_not_le; eauto.
  - apply Qlt_le_weak, Hmono2 in U.
    repeat split; try reflexivity; apply Qle_antisym; assumption.
  - repeat split; reflexivity.
Qed.

(** ** Trim bars: dragging against the other handle *)

(** C2, as stated, fails: with [surfaceWidth = 800], [rightPixel = 300] and
    the left handle dragging from 100, the pointer move to [x = 500] leaves
    [leftPixel] at 100, not at 300, and so does the release. *)
Lemma drag_left_to_500_not_clamped_to_300 :
  width (canvas Scenario.draggingLeft) = 800%N /\
  x (rightTrimBar Scenario.draggingLeft) = 300 /\
  dragged (leftTrimBar Scenario.draggingLeft) = true /\
  x (leftTrimBar (moveTrimBars Scenario.draggingLeft Scenario.pointerAt500)) = 100 /\
  ~ x (leftTrimBar (moveTrimBars Scenario.draggingLeft Scenario.pointerAt500)) == 300 /\
  ~ x (leftTrimBar (stopDrag (moveTrimBars Scenario.draggingLeft Scenario.pointerAt500)))
      == x (rightTrimBar (stopDrag (moveTrimBars Scenario.draggingLeft Scenario.pointerAt500))).
Proof.
  vm_compute. repeat split; try reflexivity; intros H; discriminate H.
Qed.

Lemma clamp_500_of_800 v : v == 500 -> Math.max 0 (Math.min v (N2Q 800)) == 500.
Proof.
  intros Hv. unfold Math.max, Math.min.
  assert (Hlt : v <= N2Q 800).
  { rewrite Hv. unfold N2Q, Qle. simpl. lia. }
  rewrite (Q.min_l _ _ Hlt), Hv. apply Q.max_r. unfold Qle. simpl. lia.
Qed.

(** C2, amended.  With [surfaceWidth = 800], [rightPixel = 300] and only the
    left handle dragging, a pointer move to [x = 500] is rejected: both
    positions keep their values; the following release leaves the right bar
    where it is and the left bar at most at 300, unchanged when it was not
    beyond the right bar. *)
Theorem drag_left_past_right_is_rejected (d : t) (p : MousePos) :
  width (canvas d) = 800%N ->
  x (rightTrimBar d) == 300 ->
  dragged (leftTrimBar d) = true ->
  dragged (rightTrimBar d) = false ->
  mx p == 500 ->
  x (leftTrimBar (moveTrimBars d p)) = x (leftTrimBar d) /\
  x (rightTrimBar (moveTrimBars d p)) = x (rightTrimBar d) /\
  x (rightTrimBar (stopDrag (moveTrimBars d p))) = x (rightTrimBar d) /\
  x (leftTrimBar (stopDrag (moveTrimBars d p))) <= 300 /\
  (x (leftTrimBar d) <= 300 ->
   x (leftTrimBar (stopDrag (moveTrimBars d p))) = x (leftTrimBar d)).
Proof.
  intros HW Hr Dl Dr Hp.
  unfold moveTrimBars. cbv zeta.
  destruct (highlight_x d p) as (Hxl & Hxr & Hc & Hdl & Hdr).
  revert Hxl Hxr Hc Hdl Hdr.
  generalize (highlightTrimBarsWhenClose d p) as h.
  intros h Hxl Hxr Hc Hdl Hdr.
  rewrite <- Hxl, <- Hxr. rewrite <- Hxr in Hr. rewrite <- Hc in HW.
  rewrite <- Hdl in Dl. rewrite <- Hdr in Dr. clear Hxl Hxr Hc Hdl Hdr d.
  pose proof (clamp_500_of_800 (mx p) Hp) as Hcx.
  unfold cw. rewrite HW. revert Hcx.
  generalize (Math.max 0 (Math.min (mx p) (N2Q 800))) as cx. intros cx Hcx.
  destruct h as [c [xl cl sl dl] [xr cr sr dr]]. rsimpl. subst dl dr.
  unfold moveDragged. rsimpl.
  destruct (Qleb cx xr) eqn:T.
  { qprop. exfalso. rewrite Hcx, Hr in T. revert T. unfold Qle. cbn. lia. }
  rsimpl. unfold stopDrag. rsimpl.
  destruct (Qgtb xl xr) eqn:T2; rsimpl; qprop.
  - repeat split; try reflexivity.
    + rewrite Hr. apply Qle_refl.
    + intros Hle. exfalso. rewrite Hr in T2. eapply Qlt_not_le; eauto.
  - repeat split; try reflexivity. rewrite <- Hr. exact T2.
Qed.

Lemma drag_left_past_right_is_rejected_witness :
  x (leftTrimBar (moveTrimBars Scenario.draggingLeft Scenario.pointerAt500))
    = x (leftTrimBar Scenario.draggingLeft) /\
  x (rightTrimBar (moveTrimBars Scenario.draggingLeft Scenario.pointerAt500))
    = x (rightTrimBar Scenario.draggingLeft) /\
  x (rightTrimBar (stopDrag (moveTrimBars Scenario.draggingLeft Scenario.pointerAt500)))
    = x (rightTrimBar Scenario.draggingLeft) /\
  x (leftTrimBar (stopDrag (moveTrimBars Scenario.draggingLeft Scenario.pointerAt500)))
    <= 300 /\
  (x (leftTrimBar Scenario.draggingLeft) <= 300 ->
   x (leftTrimBar (stopDrag (moveTrimBars Scenario.draggingLeft Scenario.pointerAt500)))
     = x (leftTrimBar Scenario.draggingLeft)).
Proof.
  apply (drag_left_past_right_is_rejected Scenario.draggingLeft Scenario.pointerAt500);
    vm_compute; reflexivity.
Defined.

(** ** Trim bars: hover is exclusive *)

(** One hover update selects both handles only when both were already
    selected and both were being dragged. *)
Lemma highlight_both_selected d p :
  both_selected (highlightTrimBarsWhenClose d p) =
  both_selected d && dragged (leftTrimBar d) && dragged (rightTrimBar d).
Proof.
  destruct d as [c [xl cl sl dl] [xr cr sr dr]].
  unfold highlightTrimBarsWhenClose, both_selected. rsimpl.
  destruct (distance_lt (mx p) (my p) (xl + 5) 8 15);
    destruct sl, sr, dl, dr; cbn [andb negb]; rsimpl;
    destruct (distance_lt (mx p) (my p) (xr - 5) 8 15);
    cbn [andb negb]; rsimpl; reflexivity.
Qed.

Lemma highlight_keeps_exclusive d p :
  both_selected d = false -> both_selected (highlightTrimBarsWhenClose d p) = false.
Proof. intros H. rewrite highlight_both_selected, H. reflexivity. Qed.

Lemma moveTrimBars_both_selected d p :
  both_selected (moveTrimBars d p)
    = both_selected (highlightTrimBarsWhenClose d p).
Proof.
  unfold moveTrimBars. cbv zeta.
  generalize (highlightTrimBarsWhenClose d p) as h. intros h.
  generalize (Math.max 0 (Math.min (mx p) (cw h))) as cx. intros cx.
  destruct (moveDragged_cases h cx) as [->|[(_ & _ & [->|(_ & ->)])|(_ & _ & ->)]];
    reflexivity.
Qed.

Lemma moveTrimBars_keeps_exclusive d p :
  both_selected d = false -> both_selected (moveTrimBars d p) = false.
Proof.
  intros H. rewrite moveTrimBars_both_selected.
  apply highlight_keeps_exclusive, H.
Qed.

Lemma step_keeps_exclusive d o :
  both_selected d = false -> both_selected (step d o) = false.
Proof.
  destruct o; rsimpl.
  - apply highlight_keeps_exclusive.
  - apply moveTrimBars_keeps_exclusive.
  - destruct d as [c [xl cl sl dl] [xr cr sr dr]].
    unfold startDrag, both_selected. rsimpl. destruct sl, sr; auto.
  - destruct d as [c [xl cl sl dl] [xr cr sr dr]].
    unfold stopDrag, both_selected. rsimpl.
    destruct dl, dr; rsimpl;
      repeat match goal with
      | |- context [if ?b then _ else _] => destruct b
      end; rsimpl; auto using andb_false_r.
  - destruct d as [c [xl cl sl dl] [xr cr sr dr]].
    unfold setTrimPositions, both_selected. rsimpl.
    match goal with
    | |- context [if ?b then _ else _] => destruct b
    end; rsimpl; auto.
  - reflexivity.
Qed.

Lemma reachable_exclusive d : reachable d -> both_selected d = false.
Proof.
  induction 1 as [c l r | d o _ IH].
  - reflexivity.
  - apply step_keeps_exclusive, IH.
Qed.

(** C5.  In every state the drawer can reach, a hover update (alone or as
    the first part of a pointer move) leaves at most one handle selected;
    and when neither handle is selected and the pointer is within 15 of
    both grab points, the update selects the left handle and not the
    right one. *)
Theorem hover_is_exclusive (d : t) (p : MousePos) :
  reachable d ->
  both_selected (highlightTrimBarsWhenClose d p) = false /\
  both_selected (moveTrimBars d p) = false /\
  (selected (leftTrimBar d) = false ->
   selected (rightTrimBar d) = false ->
   (distance (mx p) (my p) (x (leftTrimBar d) + 5) 8 < 15)%R ->
   (distance (mx p) (my p) (x (rightTrimBar d) - 5) 8 < 15)%R ->
   selected (leftTrimBar (highlightTrimBarsWhenClose d p)) = true /\
   selected (rightTrimBar (highlightTrimBarsWhenClose d p)) = false).
Proof.
  intros Hr. apply reachable_exclusive in Hr.
  split; [apply highlight_keeps_exclusive, Hr|].
  split; [apply moveTrimBars_keeps_exclusive, Hr|].
  destruct d as [c [xl cl sl dl] [xr cr sr dr]].
  unfold highlightTrimBarsWhenClose. rsimpl.
  intros -> -> HL HR. apply distance_lt_15 in HL, HR.
  rewrite HL. cbn [andb negb]. rsimpl. rewrite HR.
  cbn [andb negb]. destruct dr; cbn [negb]; rsimpl; auto.
Qed.

Lemma hover_is_exclusive_witness :
  both_selected (highlightTrimBarsWhenClose
                   (new Scenario.surface20 None None) Scenario.betweenHandles) = false /\
  both_selected (moveTrimBars
                   (new Scenario.surface20 None None) Scenario.betweenHandles) = false /\
  selected (leftTrimBar (highlightTrimBarsWhenClose
                   (new Scenario.surface20 None None) Scenario.betweenHandles)) = true /\
  selected (rightTrimBar (highlightTrimBarsWhenClose
                   (new Scenario.surface20 None None) Scenario.betweenHandles)) = false.
Proof.
  pose proof (hover_is_exclusive (new Scenario.surface20 None None)
                Scenario.betweenHandles (reach_new _ _ _)) as (H1 & H2 & H3).
  split; [exact H1|]. split; [exact H2|].
  apply H3; try reflexivity; apply distance_lt_15; vm_compute; reflexivity.
Defined.

(** ** Peak extraction *)

Import WaveformDrawer.



(** One iteration of the inner loop keeps the larger of the running peak
    and the absolute value read. *)
Lemma scan_update (cd : list Q) (j : nat) (peak : Q) :
  let peak' := match cd !! j with
               | Some v => if Qgtb (Math.abs v) peak then Math.abs v else peak
               | None => peak
               end in
  peak <= peak' /\
  (forall v, cd !! j = Some v -> Qabs v <= peak') /\
  (peak' = peak \/ exists v, cd !! j = Some v /\ peak' = Qabs v).
Proof.
  cbv zeta. unfold Math.abs.
  destruct (cd !! j) as [v|].
  - destruct (Qgtb (Qabs v) peak) eqn:T; qprop.
    + split; [apply Qlt_le_weak, T|].
      split; [intros v' [= <-]; apply Qle_refl|].
      right. exists v. auto.
    + split; [apply Qle_refl|].
      split; [intros v' [= <-]; exact T|].
      left. reflexivity.
  - split; [apply Qle_refl|]. split; [discriminate|]. left. reflexivity.
Qed.

Lemma scan_spec (cd : list Q) endIx total step j peak :
  peak <= scan cd endIx total step j peak /\
  (forall k v, (j + k * Pos.to_nat step < endIx)%nat ->
               (j + k * Pos.to_nat step < total)%nat ->
               cd !! (j + k * Pos.to_nat step)%nat = Some v ->
               Qabs v <= scan cd endIx total step j peak) /\
  (scan cd endIx total step j peak = peak \/
   exists k v, (j + k * Pos.to_nat step < endIx)%nat /\
               (j + k * Pos.to_nat step < total)%nat /\
               cd !! (j + k * Pos.to_nat step)%nat = Some v /\
               scan cd endIx total step j peak = Qabs v).
Proof.
  funelim (scan cd endIx total step j peak).
  - split; [apply Qle_refl|]. split; [intros; lia|]. left. reflexivity.
  - clear Heqcall Heq Heq0.
    destruct (scan_update channelData j peak) as (Hge & Hhere & Hwhich).
    revert H Hge Hhere Hwhich.
    generalize (match channelData !! j with
                | Some v => if Qgtb (Math.abs v) peak then Math.abs v else peak
                | None => peak
                end) as peak'.
    intros peak' (IHge & IHall & IHwhich) Hge Hhere Hwhich.
    split; [eapply Qle_trans; eauto|].
    split.
    + intros [|k] v Hk1 Hk2 Hv.
      * rewrite Nat.add_0_r in Hv. eapply Qle_trans; [apply Hhere, Hv|exact IHge].
      * apply (IHall k v).
        -- lia.
        -- lia.
        -- rewrite <- Hv. f_equal. lia.
    + destruct IHwhich as [E|(k & v & Hk1 & Hk2 & Hv & E)].
      * rewrite E. destruct Hwhich as [->|(v & Hv & ->)]; [left; reflexivity|].
        right. exists 0%nat, v. rewrite Nat.add_0_r. auto.
      * right. exists (S k), v.
        replace (j + S k * Pos.to_nat step0)%nat
          with (j + Pos.to_nat step0 + k * Pos.to_nat step0)%nat by lia.
        auto.
  - split; [apply Qle_refl|]. split; [intros; lia|]. left. reflexivity.
Qed.

Lemma lookup_map_seq {A} (f : nat -> A) (n s i : nat) :
  (i < n)%nat -> map f (seq s n) !! i = Some (f (s + i)%nat).
Proof.
  revert s i. induction n as [|n IH]; intros s i Hi; [lia|].
  destruct i as [|i]; simpl.
  - now rewrite Nat.add_0_r.
  - rewrite IH by lia. f_equal. f_equal. lia.
Qed.

Lemma stepOf_default sampleSize :
  Pos.to_nat (stepOf None sampleSize) = Nat.max 1 (sampleSize / 10).
Proof.
  unfold stepOf. destruct (sampleSize / 10)%nat as [|n] eqn:E.
  - reflexivity.
  - rewrite Nat2Pos.id by discriminate. lia.
Qed.

Lemma columnPeak_spec (cd : list Q) sampleSize step i :
  let p := columnPeak cd sampleSize step i in
  0 <= p /\
  (forall j v, inColumn (length cd) sampleSize step i j ->
               cd !! j = Some v -> Qabs v <= p) /\
  (p = 0 \/ exists j v, inColumn (length cd) sampleSize step i j /\
                        cd !! j = Some v /\ p = Qabs v).
Proof.
  cbv zeta. unfold columnPeak.
  destruct (scan_spec cd (i * sampleSize + sampleSize) (length cd) step
              (i * sampleSize) 0) as (Hge & Hall & Hwhich).
  split; [exact Hge|]. split.
  - intros j v (Hlo & Hhi & Hfc & k & ->) Hv.
    apply (Hall k v); [lia|exact Hfc|exact Hv].
  - destruct Hwhich as [E|(k & v & Hk1 & Hk2 & Hv & E)]; [left; exact E|].
    right. exists (i * sampleSize + k * Pos.to_nat step)%nat, v.
    split; [|split; assumption].
    unfold inColumn. repeat split; try lia. exists k. reflexivity.
Qed.

(** C3.  For a drawer holding a decoded buffer and a positive display
    width, [getPeaks] returns and stores exactly [displayWidth] peaks.
    With [sampleSize = floor(frameCount / width)] and [step] the given
    sample step or else [max(1, floor(sampleSize / 10))], peak [i] is the
    maximum of the absolute values of the first channel at the indices
    [i*sampleSize + k*step] below [(i+1)*sampleSize] and below the frame
    count: it bounds each of them, it is one of them when there is one,
    and it is 0 when there is none.  Every peak is non-negative, and all
    peaks are 0 when [frameCount < width]. *)
Theorem getPeaks_spec (w : WaveformDrawer.t) (b : AudioBuffer.t) :
  decodedAudioBuffer w = Some b ->
  (0 < displayWidth w)%nat ->
  let channelData := AudioBuffer.channelData0 b in
  let frameCount := length channelData in
  let sampleSize := (frameCount / displayWidth w)%nat in
  let step := stepOf (sampleStep w) sampleSize in
  exists w',
    getPeaks w = Some w' /\
    Pos.to_nat step =
      match sampleStep w with
      | Some s => Pos.to_nat s
      | None => Nat.max 1 (sampleSize / 10)
      end /\
    length (peaks w') = displayWidth w /\
    (forall i, (i < displayWidth w)%nat ->
       exists p, peaks w' !! i = Some p /\ 0 <= p /\
         (forall j v, inColumn frameCount sampleSize step i j ->
                      channelData !! j = Some v -> Qabs v <= p) /\
         ((forall j, ~ inColumn frameCount sampleSize step i j) -> p = 0) /\
         (forall j0, inColumn frameCount sampleSize step i j0 ->
            exists j v, inColumn frameCount sampleSize step i j /\
                        channelData !! j = Some v /\ p == Qabs v)) /\
    ((frameCount < displayWidth w)%nat ->
     forall i, (i < displayWidth w)%nat -> peaks w' !! i = Some 0).
Proof.
  intros Hb Hw channelData frameCount sampleSize step.
  unfold getPeaks. rewrite Hb. eexists. split; [reflexivity|].
  cbn [peaks]. unfold peaksOf, sampleSizeOf. fold channelData frameCount sampleSize step.
  split.
  { unfold step. destruct (sampleStep w); [reflexivity|apply stepOf_default]. }
  split.
  { now rewrite length_map, length_seq. }
  split.
  - intros i Hi. rewrite lookup_map_seq by exact Hi. cbn [Nat.add].
    eexists. split; [reflexivity|].
    destruct (columnPeak_spec channelData sampleSize step i) as (H0 & Hall & Hwhich).
    fold frameCount in Hall, Hwhich.
    split; [exact H0|]. split; [exact Hall|]. split.
    + intros Hnone. destruct Hwhich as [E|(j & v & Hj & _)]; [exact E|].
      exfalso. exact (Hnone j Hj).
    + intros j0 Hj0.
      destruct Hwhich as [E|(j & v & Hj & Hv & E)].
      * assert (Hlt : (j0 < length channelData)%nat) by apply Hj0.
        apply lookup_lt_is_Some in Hlt. destruct Hlt as [v0 Hv0].
        exists j0, v0. split; [exact Hj0|]. split; [exact Hv0|].
        pose proof (Hall j0 v0 Hj0 Hv0) as Hle. rewrite E in Hle.
        rewrite E. apply Qle_antisym; [apply Qabs_nonneg|exact Hle].
      * exists j, v. split; [exact Hj|]. split; [exact Hv|].
        rewrite E. reflexivity.
  - intros Hsmall i Hi. rewrite lookup_map_seq by exact Hi. cbn [Nat.add].
    f_equal.
    assert (Hss : sampleSize = 0%nat) by (apply Nat.div_small; exact Hsmall).
    destruct (columnPeak_spec channelData sampleSize step i) as (_ & _ & Hwhich).
    destruct Hwhich as [E|(j & v & (Hlo & Hhi & _) & _)]; [exact E|].
    rewrite Hss in Hlo, Hhi. lia.
Qed.

Lemma getPeaks_spec_witness :
  exists w', getPeaks Scenario.threeColumns = Some w' /\
             length (peaks w') = 3%nat /\
             exists p, peaks w' !! 1%nat = Some p /\ 0 <= p.
Proof.
  destruct (getPeaks_spec Scenario.threeColumns Scenario.sixFrames)
    as (w' & Hrun & _ & Hlen & Hcols & _).
  - reflexivity.
  - cbn. lia.
  - exists w'. split; [exact Hrun|]. split; [exact Hlen|].
    destruct (Hcols 1%nat) as (p & Hp & H0 & _); [cbn; lia|].
    exists p. split; assumption.
Defined.

Example getPeaks_threeColumns :
  option_map peaks (getPeaks Scenario.threeColumns) = Some [3#4; 1#4; 1].
Proof. vm_compute. reflexivity. Qed.

(** ** Pixel/time mapping and the playback window *)

(** C8.  Over the rationals, converting a pixel position to seconds and
    back gives the position again, for a positive duration and a positive
    width (in particular for every [x] in [[0, w]]). *)
Theorem pixel_seconds_roundtrip (x d w : Q) :
  0 <= x -> x <= w -> 0 < d -> 0 < w ->
  secondsToPixel (pixelToSeconds x d w) d w == x.
Proof.
  intros _ _ Hd Hw. unfold secondsToPixel, pixelToSeconds.
  field. split; intros E;
    first [rewrite E in Hd; exact (Qlt_irrefl 0 Hd)
          |rewrite E in Hw; exact (Qlt_irrefl 0 Hw)].
Qed.

Lemma pixel_seconds_roundtrip_witness :
  secondsToPixel (pixelToSeconds 200 4 800) 4 800 == 200.
Proof.
  apply (pixel_seconds_roundtrip 200 4 800); unfold Qle, Qlt; cbn; lia.
Defined.

(** ** SoundSample: the time window *)

Section TimeWindowInBinary64.
Import PrimFloat.
#[local] Set Warnings "-inexact-float".

(** C6, as stated, fails in the arithmetic of the code.  On a buffer of
    0.3 seconds (13230 frames at 44100 Hz) and a canvas 800 pixels wide,
    [setTrimPositions(100, 700, 800)] stores the start offset
    [pixelToSeconds(100, 0.3, 800)] = 0.0375 and the duration
    0.22499999999999998, whereas
    [pixelToSeconds(700, 0.3, 800) - startOffset] is 0.225. *)
Lemma setTrimPositions_duration_is_not_the_difference :
  (13230 / 44100 = 0.3)%float /\
  Binary64.startOffset
    (Binary64.setTrimPositions (Binary64.loadedSample 0.3) 100 700 800)
    = Binary64.pixelToSeconds 100 0.3 800 /\
  Binary64.startOffset
    (Binary64.setTrimPositions (Binary64.loadedSample 0.3) 100 700 800)
    = 0.0375%float /\
  Binary64.duration
    (Binary64.setTrimPositions (Binary64.loadedSample 0.3) 100 700 800)
    = 0.22499999999999998%float /\
  (Binary64.pixelToSeconds 700 0.3 800
   - Binary64.startOffset
       (Binary64.setTrimPositions (Binary64.loadedSample 0.3) 100 700 800)
   = 0.225)%float /\
  Binary64.duration
    (Binary64.setTrimPositions (Binary64.loadedSample 0.3) 100 700 800)
    <> (Binary64.pixelToSeconds 700 0.3 800
        - Binary64.startOffset
            (Binary64.setTrimPositions (Binary64.loadedSample 0.3) 100 700 800))%float.
Proof.
  vm_compute. repeat split; try reflexivity. intros H. discriminate H.
Qed.

(** The example of C6 is exact in binary64 as well: 1 and 2 seconds. *)
Example setTrimPositions_example_in_binary64 :
  Binary64.startOffset
    (Binary64.setTrimPositions (Binary64.loadedSample 4) 200 600 800) = 1%float /\
  Binary64.duration
    (Binary64.setTrimPositions (Binary64.loadedSample 4) 200 600 800) = 2%float.
Proof.
  vm_compute. split; reflexivity.
Qed.

End TimeWindowInBinary64.

Lemma setTrimPositions_seconds
    (s : SoundSample.t) (b : AudioBuffer.t) (leftX rightX w : Q) :
  SoundSample.decodedBuffer s = Some b ->
  0 < w ->
  SoundSample.startOffset (SoundSample.setTrimPositions s leftX rightX w)
    = (leftX / w) * AudioBuffer.duration b /\
  SoundSample.duration (SoundSample.setTrimPositions s leftX rightX w)
    = ((rightX - leftX) / w) * AudioBuffer.duration b.
Proof.
  intros Hb Hw. apply Qltb_true in Hw.
  unfold SoundSample.setTrimPositions. unfold Qgtb. rewrite Hb, Hw.
  split; reflexivity.
Qed.

Lemma rounded_setTrimPositions_seconds
    (rnd : Q -> Q) (s : SoundSample.t) (b : AudioBuffer.t) (leftX rightX w : Q) :
  SoundSample.decodedBuffer s = Some b ->
  0 < w ->
  SoundSample.startOffset (Rounded.setTrimPositions rnd s leftX rightX w)
    = Rounded.pixelToSeconds rnd leftX (AudioBuffer.duration b) w /\
  SoundSample.duration (Rounded.setTrimPositions rnd s leftX rightX w)
    = Rounded.mul rnd (Rounded.div rnd (Rounded.sub rnd rightX leftX) w)
        (AudioBuffer.duration b).
Proof.
  intros Hb Hw. apply Qltb_true in Hw.
  unfold Rounded.setTrimPositions. unfold Qgtb. rewrite Hb, Hw.
  split; reflexivity.
Qed.

(** C6, amended.  On a loaded sample with buffer duration [d], for a
    canvas width [w > 0], [setTrimPositions(leftX, rightX, w)] stores the
    two pixel positions, sets [startOffset] to
    [pixelToSeconds(leftX, d, w)], that is [(leftX / w) * d], and
    [duration] to [((rightX - leftX) / w) * d], in exact arithmetic and
    under every rounding of the operations alike; over the rationals this
    duration is exactly [pixelToSeconds(rightX, d, w) - startOffset]; for
    [d = 4], [w = 800], [leftX = 200], [rightX = 600] the two are 1 and 2
    seconds. *)
Theorem setTrimPositions_time_window
    (s : SoundSample.t) (b : AudioBuffer.t) (leftX rightX w : Q) :
  SoundSample.loaded s = true ->
  SoundSample.decodedBuffer s = Some b ->
  0 < w ->
  let d := AudioBuffer.duration b in
  let s' := SoundSample.setTrimPositions s leftX rightX w in
  SoundSample.leftTrimPosition s' = leftX /\
  SoundSample.rightTrimPosition s' = rightX /\
  SoundSample.startOffset s' = pixelToSeconds leftX d w /\
  SoundSample.startOffset s' = (leftX / w) * d /\
  SoundSample.duration s' = ((rightX - leftX) / w) * d /\
  SoundSample.duration s' == pixelToSeconds rightX d w - SoundSample.startOffset s' /\
  (d == 4 -> w == 800 -> leftX == 200 -> rightX == 600 ->
   SoundSample.startOffset s' == 1 /\ SoundSample.duration s' == 2) /\
  (forall rnd : Q -> Q,
     let r := Rounded.setTrimPositions rnd s leftX rightX w in
     SoundSample.leftTrimPosition r = leftX /\
     SoundSample.rightTrimPosition r = rightX /\
     SoundSample.startOffset r = Rounded.pixelToSeconds rnd leftX d w /\
     SoundSample.startOffset r = Rounded.mul rnd (Rounded.div rnd leftX w) d /\
     SoundSample.duration r =
       Rounded.mul rnd (Rounded.div rnd (Rounded.sub rnd rightX leftX) w) d).
Proof.
  intros _ Hb Hw d s'.
  assert (Hnz : ~ w == 0).
  { intros E. rewrite E in Hw. exact (Qlt_irrefl 0 Hw). }
  destruct (setTrimPositions_seconds s b leftX rightX w Hb Hw) as [Ho Hd].
  fold s' d in Ho, Hd. rewrite Ho, Hd. unfold pixelToSeconds.
  do 5 (split; [reflexivity|]). split; [|split].
  - field. exact Hnz.
  - intros Ed Ew El Er. split.
    + rewrite Ed, Ew, El. reflexivity.
    + rewrite Ed, Ew, El, Er. reflexivity.
  - intros rnd. cbv zeta.
    destruct (rounded_setTrimPositions_seconds rnd s b leftX rightX w Hb Hw)
      as [Ro Rd].
    fold d in Ro, Rd.
    do 2 (split; [reflexivity|]). split; [exact Ro|]. split; [exact Ro|exact Rd].
Qed.

Lemma setTrimPositions_time_window_witness :
  SoundSample.startOffset (SoundSample.setTrimPositions Scenario.kick 200 600 800) == 1 /\
  SoundSample.duration (SoundSample.setTrimPositions Scenario.kick 200 600 800) == 2.
Proof.
  destruct (setTrimPositions_time_window Scenario.kick Scenario.fourSeconds 200 600 800)
    as (_ & _ & _ & _ & _ & _ & H & _).
  - reflexivity.
  - reflexivity.
  - unfold Qlt; cbn; lia.
  - apply H; reflexivity.
Defined.

(** C7.  When a loaded sample is played, exactly one source is started.
    It is started on the whole buffer, with no offset and no duration,
    whenever the stored trim duration is at least the buffer duration (or
    is not positive); it is started on the window
    [(startOffset, duration)] exactly when
    [0 < duration < buffer duration].  After [setTrimPositions(0, w, w)]
    (bars at full extent) the whole buffer is played. *)
Theorem play_full_or_window (s : SoundSample.t) (b : AudioBuffer.t) (hasDestination : bool) :
  SoundSample.loaded s = true ->
  SoundSample.decodedBuffer s = Some b ->
  let starts s := startsOf (fst (SoundSample.play s true hasDestination)) in
  (AudioBuffer.duration b <= SoundSample.duration s -> starts s = [StartFull]) /\
  (0 < SoundSample.duration s ->
   SoundSample.duration s < AudioBuffer.duration b ->
   starts s = [StartWindow (SoundSample.startOffset s) (SoundSample.duration s)]) /\
  (forall o du, In (StartWindow o du) (starts s) ->
     0 < SoundSample.duration s /\
     SoundSample.duration s < AudioBuffer.duration b /\
     o = SoundSample.startOffset s /\ du = SoundSample.duration s) /\
  (forall w, 0 < w -> starts (SoundSample.setTrimPositions s 0 w w) = [StartFull]).
Proof.
  intros Hl Hb starts.
  assert (Hplay : forall s0, SoundSample.loaded s0 = true ->
            SoundSample.decodedBuffer s0 = Some b ->
            starts s0 =
              if Qgtb (SoundSample.duration s0) 0 &&
                 Qltb (SoundSample.duration s0) (AudioBuffer.duration b)
              then [StartWindow (SoundSample.startOffset s0) (SoundSample.duration s0)]
              else [StartFull]).
  { intros s0 Hl0 Hb0. unfold starts, SoundSample.play. rewrite Hl0, Hb0.
    destruct (Qgtb (SoundSample.duration s0) 0 &&
              Qltb (SoundSample.duration s0) (AudioBuffer.duration b));
      reflexivity. }
  split; [|split; [|split]].
  - intros Hge. rewrite (Hplay s Hl Hb).
    destruct (Qltb (SoundSample.duration s) (AudioBuffer.duration b)) eqn:T.
    + qprop. exfalso. eapply Qlt_not_le; eauto.
    + rewrite andb_false_r. reflexivity.
  - intros H0 Hlt. rewrite (Hplay s Hl Hb).
    apply Qltb_true in H0, Hlt. unfold Qgtb. rewrite H0, Hlt. reflexivity.
  - intros o du Hin. rewrite (Hplay s Hl Hb) in Hin.
    destruct (Qgtb (SoundSample.duration s) 0) eqn:T1;
      destruct (Qltb (SoundSample.duration s) (AudioBuffer.duration b)) eqn:T2;
      cbn [andb] in Hin; destruct Hin as [E|[]]; try discriminate E.
    injection E as <- <-. qprop. auto.
  - intros w Hw.
    assert (Hl' : SoundSample.loaded (SoundSample.setTrimPositions s 0 w w) = true)
      by exact Hl.
    assert (Hb' : SoundSample.decodedBuffer (SoundSample.setTrimPositions s 0 w w) = Some b)
      by exact Hb.
    rewrite (Hplay _ Hl' Hb').
    destruct (setTrimPositions_seconds s b 0 w w Hb Hw) as [_ Hd].
    rewrite Hd.
    assert (Hfull : ((w - 0) / w) * AudioBuffer.duration b == AudioBuffer.duration b).
    { field. intros E. rewrite E in Hw. exact (Qlt_irrefl 0 Hw). }
    destruct (Qltb (((w - 0) / w) * AudioBuffer.duration b) (AudioBuffer.duration b)) eqn:T.
    + qprop. rewrite Hfull in T. exfalso. exact (Qlt_irrefl _ T).
    + rewrite andb_false_r. reflexivity.
Qed.

Lemma play_full_or_window_witness :
  startsOf (fst (SoundSample.play
                   (SoundSample.setTrimPositions Scenario.kick 0 800 800) true true))
    = [StartFull].
Proof.
  destruct (play_full_or_window Scenario.kick Scenario.fourSeconds true)
    as (_ & _ & _ & H).
  - reflexivity.
  - reflexivity.
  - apply H. unfold Qlt; cbn; lia.
Defined.

(** ** Engine entry points on pads without a loaded sample *)

Lemma sampleAt_unloaded (e : SamplerEngine.t) (index : Z) :
  (forall s, (0 <= index)%Z ->
             SamplerEngine.samples e !! Z.to_nat index = Some (Some s) ->
             SoundSample.loaded s = false) ->
  forall s, SamplerEngine.sampleAt e index = Some s -> SoundSample.isLoaded s = false.
Proof.
  intros H s. unfold SamplerEngine.sampleAt.
  destruct (index <? 0)%Z eqn:Hneg; [discriminate|].
  apply Z.ltb_ge in Hneg.
  destruct (SamplerEngine.samples e !! Z.to_nat index) as [[s0|]|] eqn:Hs;
    try discriminate.
  intros [= <-]. exact (H s0 Hneg eq_refl).
Qed.

(** C9.  When the slot at [index] holds no sample, or a sample that is not
    loaded, [updateTrimBars] returns normally, produces no effect at all
    (no event to a subscriber, no console output) and leaves the engine,
    hence every slot with its trim positions, start offset and duration,
    as it was. *)
Theorem updateTrimBars_unloaded_is_noop
    (e : SamplerEngine.t) (index : Z) (leftX rightX canvasWidth : Q) :
  (forall s, (0 <= index)%Z ->
             SamplerEngine.samples e !! Z.to_nat index = Some (Some s) ->
             SoundSample.loaded s = false) ->
  SamplerEngine.updateTrimBars e index leftX rightX canvasWidth =
    {| SamplerEngine.engine := e;
       SamplerEngine.effects := [];
       SamplerEngine.completion := Returned tt |}.
Proof.
  intros H. pose proof (sampleAt_unloaded e index H) as Hs.
  unfold SamplerEngine.updateTrimBars.
  destruct (SamplerEngine.sampleAt e index) as [s|]; [|reflexivity].
  rewrite (Hs s eq_refl). reflexivity.
Qed.

Lemma updateTrimBars_unloaded_is_noop_witness :
  SamplerEngine.updateTrimBars Scenario.engine16 1 200 600 800 =
    {| SamplerEngine.engine := Scenario.engine16;
       SamplerEngine.effects := [];
       SamplerEngine.completion := Returned tt |}.
Proof.
  apply (updateTrimBars_unloaded_is_noop Scenario.engine16 1 200 600 800).
  intros s _ Hs. vm_compute in Hs. injection Hs as <-. reflexivity.
Defined.

(** C10.  For an index below 0 or at least [padCount], and for an index
    whose slot holds no sample or a sample that is not loaded, [playSound]
    returns normally, leaves the engine unchanged, and its only effect is
    one console warning: no source is started and no subscriber receives a
    play event. *)
Theorem playSound_guarded_is_inert (e : SamplerEngine.t) (index : Z) :
  ((index < 0)%Z \/ (SamplerEngine.padCount e <= index)%Z \/
   (forall s, (0 <= index)%Z ->
              SamplerEngine.samples e !! Z.to_nat index = Some (Some s) ->
              SoundSample.loaded s = false)) ->
  SamplerEngine.engine (SamplerEngine.playSound e index) = e /\
  SamplerEngine.completion (SamplerEngine.playSound e index) = Returned tt /\
  (exists m, SamplerEngine.effects (SamplerEngine.playSound e index) = [ConsoleWarn m]) /\
  (forall fx, In fx (SamplerEngine.effects (SamplerEngine.playSound e index)) ->
              is_audio_start fx = false /\ is_event fx = false).
Proof.
  intros H.
  assert (Hout : exists m, SamplerEngine.playSound e index =
            {| SamplerEngine.engine := e;
               SamplerEngine.effects := [ConsoleWarn m];
               SamplerEngine.completion := Returned tt |}).
  { unfold SamplerEngine.playSound.
    destruct ((index <? 0)%Z || (index >=? SamplerEngine.padCount e)%Z) eqn:Hrange.
    - eexists. reflexivity.
    - apply orb_false_elim in Hrange. destruct Hrange as [Hneg Hge].
      apply Z.ltb_ge in Hneg. rewrite Z.geb_leb in Hge. apply Z.leb_gt in Hge.
      destruct H as [H|[H|H]]; [lia|lia|].
      pose proof (sampleAt_unloaded e index H) as Hs.
      destruct (SamplerEngine.sampleAt e index) as [s|]; [|eexists; reflexivity].
      rewrite (Hs s eq_refl). eexists. reflexivity. }
  destruct Hout as [m ->]. cbn.
  split; [reflexivity|]. split; [reflexivity|]. split; [exists m; reflexivity|].
  intros fx [<-|[]]. split; reflexivity.
Qed.

Lemma playSound_guarded_is_inert_witness :
  SamplerEngine.engine (SamplerEngine.playSound Scenario.engine16 1) = Scenario.engine16 /\
  SamplerEngine.completion (SamplerEngine.playSound Scenario.engine16 1) = Returned tt /\
  (exists m, SamplerEngine.effects (SamplerEngine.playSound Scenario.engine16 1)
             = [ConsoleWarn m]) /\
  (forall fx, In fx (SamplerEngine.effects (SamplerEngine.playSound Scenario.engine16 1)) ->
              is_audio_start fx = false /\ is_event fx = false).
Proof.
  apply (playSound_guarded_is_inert Scenario.engine16 1).
  right. right. intros s _ Hs. vm_compute in Hs. injection Hs as <-. reflexivity.
Defined.

(** On the loaded pad of the same engine the source is started and the
    subscriber is notified: the guards above are what keeps the other
    pads silent. *)
Example playSound_loaded_pad :
  SamplerEngine.effects (SamplerEngine.playSound Scenario.engine16 0) =
    [AudioStart {| source_buffer := Scenario.fourSeconds;
                   source_target := ToMasterGain;
                   source_start := StartFull |};
     ConsoleLog (MsgPlayingFull "Kick");
     PlayEvent 7%nat 0].
Proof. vm_compute. reflexivity. Qed.

(** * Further properties of the code *)

(** ** utils.js: clamp and the pixel/time mapping *)

(** X1.  For ordered bounds [clamp] returns a value between them: the
    value itself when it lies between the bounds, the nearer bound
    otherwise. *)
Theorem clamp_between (value lo hi : Q) :
  lo <= hi ->
  (lo <= Utils.clamp value lo hi /\ Utils.clamp value lo hi <= hi) /\
  (lo <= value -> value <= hi -> Utils.clamp value lo hi == value) /\
  (value <= lo -> Utils.clamp value lo hi == lo) /\
  (hi <= value -> Utils.clamp value lo hi == hi).
Proof.
  intros Hb. unfold Utils.clamp, Math.min, Math.max.
  split; [split|split; [|split]].
  - apply Q.min_glb; [apply Q.le_max_r|exact Hb].
  - apply Q.le_min_r.
  - intros H1 H2. rewrite (Q.max_l _ _ H1). apply Q.min_l, H2.
  - intros H1. rewrite (Q.max_r _ _ H1). apply Q.min_l, Hb.
  - intros H1. apply Q.min_r.
    eapply Qle_trans; [exact H1|apply Q.le_max_l].
Qed.

Lemma clamp_between_witness :
  Utils.clamp 900 0 800 == 800 /\ Utils.clamp (-5) 0 800 == 0 /\
  Utils.clamp 300 0 800 == 300.
Proof.
  destruct (clamp_between 900 0 800) as (_ & _ & _ & Hhi);
    [apply Qle_bool_iff; reflexivity|].
  destruct (clamp_between (-5) 0 800) as (_ & _ & Hlo & _);
    [apply Qle_bool_iff; reflexivity|].
  destruct (clamp_between 300 0 800) as (_ & Hin & _ & _);
    [apply Qle_bool_iff; reflexivity|].
  split; [apply Hhi|split; [apply Hlo|apply Hin]];
    apply Qle_bool_iff; reflexivity.
Defined.

(** X2.  The clamping written inline in [moveTrimBars] and
    [setTrimPositions], [Math.max(0, Math.min(x, width))], gives the same
    value as [clamp(x, 0, width)] on any canvas; with inverted bounds
    [clamp] returns its upper bound, whatever the value. *)
Theorem clamp_inline_and_inverted (value lo hi : Q) (c : TrimbarsDrawer.Canvas) :
  Math.max 0 (Math.min value (N2Q (TrimbarsDrawer.width c)))
    == Utils.clamp value 0 (N2Q (TrimbarsDrawer.width c)) /\
  (hi < lo -> Utils.clamp value lo hi == hi).
Proof.
  unfold Utils.clamp, Math.min, Math.max. split.
  - pose proof (N2Q_nonneg (TrimbarsDrawer.width c)) as Hw. revert Hw.
    generalize (N2Q (TrimbarsDrawer.width c)) as w. intros w Hw.
    destruct (Qlt_le_dec value 0) as [Hneg|Hpos].
    + rewrite (Q.max_r value 0) by (apply Qlt_le_weak, Hneg).
      rewrite (Q.min_l 0 w Hw).
      apply Q.max_l. eapply Qle_trans; [apply Q.le_min_l|apply Qlt_le_weak, Hneg].
    + rewrite (Q.max_l value 0 Hpos).
      apply Q.max_r. apply Q.min_glb; assumption.
  - intros Hinv. apply Q.min_r.
    eapply Qle_trans; [apply Qlt_le_weak, Hinv|apply Q.le_max_r].
Qed.

(** X3.  Over the rationals, converting seconds to a pixel position and
    back gives the seconds again, for a positive duration and width. *)
Theorem seconds_pixel_roundtrip (seconds d w : Q) :
  0 < d -> 0 < w ->
  pixelToSeconds (secondsToPixel seconds d w) d w == seconds.
Proof.
  intros Hd Hw. unfold secondsToPixel, pixelToSeconds.
  field. split; intros E;
    first [rewrite E in Hd; exact (Qlt_irrefl 0 Hd)
          |rewrite E in Hw; exact (Qlt_irrefl 0 Hw)].
Qed.

Lemma seconds_pixel_roundtrip_witness :
  pixelToSeconds (secondsToPixel 1 4 800) 4 800 == 1.
Proof.
  apply (seconds_pixel_roundtrip 1 4 800); apply Qltb_true; reflexivity.
Defined.

Lemma pixelToSeconds_mono (a b d w : Q) :
  0 <= d -> 0 < w -> a <= b -> pixelToSeconds a d w <= pixelToSeconds b d w.
Proof.
  intros Hd Hw Hab. unfold pixelToSeconds.
  apply Qmult_le_compat_r; [|exact Hd].
  unfold Qdiv. apply Qmult_le_compat_r; [exact Hab|].
  apply Qlt_le_weak, Qinv_lt_0_compat, Hw.
Qed.

Lemma pixelToSeconds_zero (d w : Q) : 0 < w -> pixelToSeconds 0 d w == 0.
Proof.
  intros Hw. unfold pixelToSeconds. field.
  intros E. rewrite E in Hw. exact (Qlt_irrefl 0 Hw).
Qed.

Lemma pixelToSeconds_full (d w : Q) : 0 < w -> pixelToSeconds w d w == d.
Proof.
  intros Hw. unfold pixelToSeconds. field.
  intros E. rewrite E in Hw. exact (Qlt_irrefl 0 Hw).
Qed.

(** X4.  For a non-negative duration and a positive width,
    [pixelToSeconds] is monotone and maps the pixels of the canvas into
    the buffer: 0 to 0 seconds, the full width to the full duration. *)
Theorem pixelToSeconds_range (x y d w : Q) :
  0 <= d -> 0 < w -> 0 <= x -> x <= y -> y <= w ->
  pixelToSeconds 0 d w == 0 /\
  pixelToSeconds w d w == d /\
  0 <= pixelToSeconds x d w /\
  pixelToSeconds x d w <= pixelToSeconds y d w /\
  pixelToSeconds y d w <= d.
Proof.
  intros Hd Hw Hx Hxy Hy.
  split; [apply pixelToSeconds_zero, Hw|].
  split; [apply pixelToSeconds_full, Hw|].
  split.
  - rewrite <- (pixelToSeconds_zero d w Hw). apply pixelToSeconds_mono; assumption.
  - split; [apply pixelToSeconds_mono; assumption|].
    rewrite <- (pixelToSeconds_full d w Hw) at 2.
    apply pixelToSeconds_mono; assumption.
Qed.

Lemma pixelToSeconds_range_witness :
  0 <= pixelToSeconds 200 4 800 /\
  pixelToSeconds 200 4 800 <= pixelToSeconds 600 4 800 /\
  pixelToSeconds 600 4 800 <= 4.
Proof.
  destruct (pixelToSeconds_range 200 600 4 800) as (_ & _ & H);
    try (apply Qle_bool_iff; reflexivity); [apply Qltb_true; reflexivity|].
  exact H.
Defined.

(** ** SoundSample: the stored window and playing without a buffer *)

(** Rounded arithmetic: what monotonicity and the kept values give. *)

Lemma rounded_nonneg (rnd : Q -> Q) (a : Q) :
  Rounded.monotone rnd -> Rounded.representable rnd 0 ->
  0 <= a -> 0 <= rnd a.
Proof.
  intros Hm H0 Ha. apply (Qle_trans _ (rnd 0)); [|apply Hm, Ha].
  unfold Rounded.representable in H0. rewrite H0. apply Qle_refl.
Qed.

Lemma rounded_le_kept (rnd : Q -> Q) (a b : Q) :
  Rounded.monotone rnd -> Rounded.representable rnd b ->
  a <= b -> rnd a <= b.
Proof.
  intros Hm Hb Hab. apply (Qle_trans _ (rnd b)); [apply Hm, Hab|].
  unfold Rounded.representable in Hb. rewrite Hb. apply Qle_refl.
Qed.

Lemma rounded_compat (rnd : Q -> Q) (a b : Q) :
  Rounded.monotone rnd -> a == b -> rnd a == rnd b.
Proof.
  intros Hm E. apply Qle_antisym; apply Hm; rewrite E; apply Qle_refl.
Qed.

Lemma rounded_div_unit (rnd : Q -> Q) (a w : Q) :
  Rounded.monotone rnd ->
  Rounded.representable rnd 0 -> Rounded.representable rnd 1 ->
  0 < w -> 0 <= a -> a <= w ->
  0 <= Rounded.div rnd a w /\ Rounded.div rnd a w <= 1.
Proof.
  intros Hm H0 H1 Hw Ha Haw. unfold Rounded.div. split.
  - apply rounded_nonneg; [exact Hm|exact H0|].
    apply Qle_shift_div_l; [exact Hw|]. rewrite Qmult_0_l. exact Ha.
  - apply rounded_le_kept; [exact Hm|exact H1|].
    apply Qle_shift_div_r; [exact Hw|]. rewrite Qmult_1_l. exact Haw.
Qed.

Lemma rounded_mul_unit (rnd : Q -> Q) (q d : Q) :
  Rounded.monotone rnd ->
  Rounded.representable rnd 0 -> Rounded.representable rnd d ->
  0 <= d -> 0 <= q -> q <= 1 ->
  0 <= Rounded.mul rnd q d /\ Rounded.mul rnd q d <= d.
Proof.
  intros Hm H0 Hd Hd0 Hq Hq1. unfold Rounded.mul. split.
  - apply rounded_nonneg; [exact Hm|exact H0|].
    apply Qmult_le_0_compat; assumption.
  - apply rounded_le_kept; [exact Hm|exact Hd|].
    rewrite <- (Qmult_1_l d) at 2. apply Qmult_le_compat_r; assumption.
Qed.

Lemma rounded_sub_range (rnd : Q -> Q) (l r w : Q) :
  Rounded.monotone rnd ->
  Rounded.representable rnd 0 -> Rounded.representable rnd w ->
  0 <= l -> l <= r -> r <= w ->
  0 <= Rounded.sub rnd r l /\ Rounded.sub rnd r l <= w.
Proof.
  intros Hm H0 Hw Hl Hlr Hr. unfold Rounded.sub. split.
  - apply rounded_nonneg; [exact Hm|exact H0|lra].
  - apply rounded_le_kept; [exact Hm|exact Hw|lra].
Qed.

Lemma rounded_pixelToSeconds_mono (rnd : Q -> Q) (x y d w : Q) :
  Rounded.monotone rnd ->
  0 <= d -> 0 < w -> x <= y ->
  Rounded.pixelToSeconds rnd x d w <= Rounded.pixelToSeconds rnd y d w.
Proof.
  intros Hm Hd Hw Hxy. unfold Rounded.pixelToSeconds, Rounded.mul, Rounded.div.
  apply Hm. apply Qmult_le_compat_r; [|exact Hd].
  apply Hm. unfold Qdiv. apply Qmult_le_compat_r; [exact Hxy|].
  apply Qlt_le_weak, Qinv_lt_0_compat, Hw.
Qed.

(** The two values [setTrimPositions] computes from ordered pixel
    positions: each lies between 0 and the buffer duration. *)
Lemma rounded_window_bounds (rnd : Q -> Q) (leftX rightX d w : Q) :
  Rounded.monotone rnd ->
  Rounded.representable rnd 0 -> Rounded.representable rnd 1 ->
  Rounded.representable rnd w -> Rounded.representable rnd d ->
  0 <= d -> 0 < w -> 0 <= leftX -> leftX <= rightX -> rightX <= w ->
  (0 <= Rounded.mul rnd (Rounded.div rnd leftX w) d /\
   Rounded.mul rnd (Rounded.div rnd leftX w) d <= d) /\
  (0 <= Rounded.mul rnd (Rounded.div rnd (Rounded.sub rnd rightX leftX) w) d /\
   Rounded.mul rnd (Rounded.div rnd (Rounded.sub rnd rightX leftX) w) d <= d).
Proof.
  intros Hm H0 H1 Hrw Hrd Hd Hw Hl Hlr Hr.
  assert (Hlw : leftX <= w) by (apply (Qle_trans _ rightX); assumption).
  destruct (rounded_div_unit rnd leftX w Hm H0 H1 Hw Hl Hlw) as [A B].
  destruct (rounded_sub_range rnd leftX rightX w Hm H0 Hrw Hl Hlr Hr) as [C D].
  destruct (rounded_div_unit rnd (Rounded.sub rnd rightX leftX) w Hm H0 H1 Hw C D)
    as [E F].
  split; apply rounded_mul_unit; assumption.
Qed.

Lemma exact_monotone : Rounded.monotone Rounded.exact.
Proof. intros a b H. exact H. Qed.

Lemma exact_representable (a : Q) : Rounded.representable Rounded.exact a.
Proof. unfold Rounded.representable, Rounded.exact. reflexivity. Qed.

(** With nothing rounded, [Rounded.setTrimPositions] is
    [SoundSample.setTrimPositions]. *)
Lemma setTrimPositions_exact (s : SoundSample.t) (leftX rightX w : Q) :
  Rounded.setTrimPositions Rounded.exact s leftX rightX w
  = SoundSample.setTrimPositions s leftX rightX w.
Proof. reflexivity. Qed.

Lemma toGrid_monotone : Rounded.monotone Rounded.toGrid.
Proof.
  intros a b Hab. unfold Rounded.toGrid, Qle. cbn [Qnum Qden].
  apply Z.mul_le_mono_nonneg_r; [lia|].
  apply Qfloor_resp_le. lra.
Qed.

Lemma toGrid_idempotent : Rounded.idempotent Rounded.toGrid.
Proof.
  intros a. unfold Rounded.representable, Rounded.toGrid.
  generalize (Qfloor (a * 1024 + (1 # 2))) as z. intros z.
  unfold Qeq, Qfloor, Qplus, Qmult. cbn [Qnum Qden].
  f_equal.
  change (Z.pos (1024 * 1 * 2)) with 2048%Z.
  change (Z.pos (1024 * 1)) with 1024%Z.
  symmetry. apply (Z.div_unique _ _ _ 1024%Z); lia.
Qed.

(** X5.  Under every rounding of the operations that is monotone and
    keeps 0, 1, the canvas width and the buffer duration (exact
    arithmetic, and binary64 on such numbers), [setTrimPositions] on
    ordered pixel positions inside a canvas of positive width stores a
    start offset that is [pixelToSeconds(leftX)] and lies between 0 and
    the buffer duration, a duration that lies between 0 and the buffer
    duration, and a start offset that is not after
    [pixelToSeconds(rightX)], which is itself inside the buffer. *)
Theorem setTrimPositions_window_bounds
    (rnd : Q -> Q) (s : SoundSample.t) (b : AudioBuffer.t) (leftX rightX w : Q) :
  Rounded.monotone rnd ->
  Rounded.representable rnd 0 -> Rounded.representable rnd 1 ->
  Rounded.representable rnd w ->
  Rounded.representable rnd (AudioBuffer.duration b) ->
  SoundSample.decodedBuffer s = Some b ->
  0 <= AudioBuffer.duration b ->
  0 < w -> 0 <= leftX -> leftX <= rightX -> rightX <= w ->
  let d := AudioBuffer.duration b in
  let s' := Rounded.setTrimPositions rnd s leftX rightX w in
  SoundSample.leftTrimPosition s' = leftX /\
  SoundSample.rightTrimPosition s' = rightX /\
  SoundSample.startOffset s' = Rounded.pixelToSeconds rnd leftX d w /\
  0 <= SoundSample.startOffset s' /\
  SoundSample.startOffset s' <= d /\
  0 <= SoundSample.duration s' /\
  SoundSample.duration s' <= d /\
  SoundSample.startOffset s' <= Rounded.pixelToSeconds rnd rightX d w /\
  Rounded.pixelToSeconds rnd rightX d w <= d.
Proof.
  intros Hm H0 H1 Hrw Hrd Hb Hd Hw Hl Hlr Hr d s'.
  destruct (rounded_setTrimPositions_seconds rnd s b leftX rightX w Hb Hw) as [Eo Ed].
  fold s' d in Eo, Ed.
  destruct (rounded_window_bounds rnd leftX rightX d w Hm H0 H1 Hrw Hrd Hd Hw Hl Hlr Hr)
    as [[A B] [C D]].
  assert (Hr0 : 0 <= rightX) by (apply (Qle_trans _ leftX); assumption).
  destruct (rounded_div_unit rnd rightX w Hm H0 H1 Hw Hr0 Hr) as [E F].
  destruct (rounded_mul_unit rnd (Rounded.div rnd rightX w) d Hm H0 Hrd Hd E F)
    as [_ G].
  split; [reflexivity|]. split; [reflexivity|]. split; [exact Eo|].
  rewrite Eo, Ed. unfold Rounded.pixelToSeconds at 1 2 3.
  split; [exact A|]. split; [exact B|]. split; [exact C|]. split; [exact D|].
  split; [|exact G].
  apply (rounded_pixelToSeconds_mono rnd leftX rightX d w Hm Hd Hw Hlr).
Qed.

Lemma setTrimPositions_window_bounds_witness :
  SoundSample.startOffset (Rounded.setTrimPositions Rounded.toGrid Scenario.kick 1 2 3)
    <= 4 /\
  SoundSample.duration (Rounded.setTrimPositions Rounded.toGrid Scenario.kick 1 2 3)
    <= 4.
Proof.
  destruct (setTrimPositions_window_bounds Rounded.toGrid Scenario.kick
              Scenario.fourSeconds 1 2 3 toGrid_monotone)
    as (_ & _ & _ & _ & H1 & _ & H2 & _);
    try reflexivity; try (apply Qle_bool_iff; reflexivity);
    try (apply Qltb_true; reflexivity).
  split; [exact H1|exact H2].
Defined.

Section WindowEndInBinary64.
Import PrimFloat.
#[local] Set Warnings "-inexact-float".

(** The two bounds cannot be added: in binary64 the end of the stored
    window, [startOffset + duration], can pass the end of the buffer by a
    rounding error.  On a buffer of 3 seconds and a canvas 5 pixels wide,
    [setTrimPositions(1, 5, 5)] stores 0.6000000000000001 and
    2.4000000000000004, each within the buffer, whose sum is
    3.0000000000000004. *)
Example window_end_can_pass_buffer_in_binary64 :
  Binary64.startOffset (Binary64.setTrimPositions (Binary64.loadedSample 3) 1 5 5)
    = 0.6000000000000001%float /\
  Binary64.duration (Binary64.setTrimPositions (Binary64.loadedSample 3) 1 5 5)
    = 2.4000000000000004%float /\
  (Binary64.startOffset (Binary64.setTrimPositions (Binary64.loadedSample 3) 1 5 5)
   + Binary64.duration (Binary64.setTrimPositions (Binary64.loadedSample 3) 1 5 5)
   = 3.0000000000000004)%float /\
  (3 <? (Binary64.startOffset (Binary64.setTrimPositions (Binary64.loadedSample 3) 1 5 5)
         + Binary64.duration (Binary64.setTrimPositions (Binary64.loadedSample 3) 1 5 5)))%float
    = true.
Proof.
  vm_compute. repeat split; reflexivity.
Qed.

End WindowEndInBinary64.

(** X6.  On a sample without a decoded buffer, or for a canvas width that
    is not positive, [setTrimPositions] stores the two pixel positions and
    leaves the start offset, the duration and everything else alone. *)
Theorem setTrimPositions_pixels_only (s : SoundSample.t) (leftX rightX w : Q) :
  SoundSample.decodedBuffer s = None \/ w <= 0 ->
  SoundSample.setTrimPositions s leftX rightX w =
    {| SoundSample.url := SoundSample.url s;
       SoundSample.name := SoundSample.name s;
       SoundSample.index := SoundSample.index s;
       SoundSample.decodedBuffer := SoundSample.decodedBuffer s;
       SoundSample.leftTrimPosition := leftX;
       SoundSample.rightTrimPosition := rightX;
       SoundSample.startOffset := SoundSample.startOffset s;
       SoundSample.duration := SoundSample.duration s;
       SoundSample.loaded := SoundSample.loaded s;
       SoundSample.loading := SoundSample.loading s;
       SoundSample.loadProgress := SoundSample.loadProgress s;
       SoundSample.error := SoundSample.error s |}.
Proof.
  intros H. unfold SoundSample.setTrimPositions.
  destruct (SoundSample.decodedBuffer s) as [b|]; [|reflexivity].
  destruct H as [H|H]; [discriminate H|].
  apply Qltb_false in H. unfold Qgtb. rewrite H. reflexivity.
Qed.

Lemma setTrimPositions_pixels_only_witness :
  SoundSample.startOffset (SoundSample.setTrimPositions Scenario.kick 200 600 0) = 0 /\
  SoundSample.duration (SoundSample.setTrimPositions Scenario.kick 200 600 0) = 4 /\
  SoundSample.rightTrimPosition (SoundSample.setTrimPositions Scenario.kick 200 600 0) = 600.
Proof.
  rewrite (setTrimPositions_pixels_only Scenario.kick 200 600 0).
  - repeat split.
  - right. apply Qle_bool_iff. reflexivity.
Defined.

(** X7.  [play] on a sample that is not loaded, or has no decoded buffer,
    returns [null] after one warning: no source is created or started,
    and the audio context is not touched, so nothing is thrown even when
    it is [null]. *)
Theorem play_not_loaded (s : SoundSample.t) (hasContext hasDestination : bool) :
  SoundSample.loaded s = false \/ SoundSample.decodedBuffer s = None ->
  SoundSample.play s hasContext hasDestination =
    ([ConsoleWarn (MsgNotLoadedYet (SoundSample.name s))], Returned None).
Proof.
  intros H. unfold SoundSample.play.
  destruct (SoundSample.loaded s); destruct (SoundSample.decodedBuffer s);
    try reflexivity.
  destruct H as [H|H]; discriminate H.
Qed.

Lemma play_not_loaded_witness :
  SoundSample.play Scenario.pendingSnare false false =
    ([ConsoleWarn (MsgNotLoadedYet "Snare")], Returned None).
Proof.
  apply (play_not_loaded Scenario.pendingSnare false false). left. reflexivity.
Defined.

(** ** Trim bars: what dragging and hovering do *)

Lemma moveDragged_only_x h cx :
  exists xl xr,
    moveDragged h cx =
      {| canvas := canvas h;
         leftTrimBar := set_x (leftTrimBar h) xl;
         rightTrimBar := set_x (rightTrimBar h) xr |}.
Proof.
  destruct h as [c [xl cl sl dl] [xr cr sr dr]].
  destruct (moveDragged_cases
              {| canvas := c;
                 leftTrimBar := {| x := xl; color := cl; selected := sl; dragged := dl |};
                 rightTrimBar := {| x := xr; color := cr; selected := sr; dragged := dr |} |}
              cx) as [->|[(_ & _ & [->|(_ & ->)])|(_ & _ & ->)]];
    rsimpl; eexists; eexists; reflexivity.
Qed.

Lemma highlight_flagsOk d p :
  flagsOk d = true ->
  flagsOk (highlightTrimBarsWhenClose d p) = true /\
  isRed (color (leftTrimBar (highlightTrimBarsWhenClose d p)))
    = selected (leftTrimBar (highlightTrimBarsWhenClose d p)) /\
  isRed (color (rightTrimBar (highlightTrimBarsWhenClose d p)))
    = selected (rightTrimBar (highlightTrimBarsWhenClose d p)).
Proof.
  destruct d as [c [xl cl sl dl] [xr cr sr dr]].
  unfold highlightTrimBarsWhenClose, flagsOk. rsimpl.
  destruct (distance_lt (mx p) (my p) (xl + 5) 8 15);
    destruct sl, sr, dl, dr, cl, cr; cbn [andb negb implb isRed]; rsimpl;
    try discriminate;
    destruct (distance_lt (mx p) (my p) (xr - 5) 8 15);
    cbn [andb negb implb isRed]; rsimpl; intros _; repeat split.
Qed.

Lemma moveTrimBars_flags d p :
  flagsOk (moveTrimBars d p) = flagsOk (highlightTrimBarsWhenClose d p) /\
  color (leftTrimBar (moveTrimBars d p))
    = color (leftTrimBar (highlightTrimBarsWhenClose d p)) /\
  selected (leftTrimBar (moveTrimBars d p))
    = selected (leftTrimBar (highlightTrimBarsWhenClose d p)) /\
  color (rightTrimBar (moveTrimBars d p))
    = color (rightTrimBar (highlightTrimBarsWhenClose d p)) /\
  selected (rightTrimBar (moveTrimBars d p))
    = selected (rightTrimBar (highlightTrimBarsWhenClose d p)).
Proof.
  unfold moveTrimBars. cbv zeta.
  generalize (highlightTrimBarsWhenClose d p) as h. intros h.
  generalize (Math.max 0 (Math.min (mx p) (cw h))) as cx. intros cx.
  destruct (moveDragged_only_x h cx) as (xl & xr & ->).
  repeat split.
Qed.

Lemma step_flagsOk d o : flagsOk d = true -> flagsOk (step d o) = true.
Proof.
  destruct o; rsimpl.
  - intros H. apply (highlight_flagsOk d p H).
  - intros H. destruct (moveTrimBars_flags d p) as (-> & _).
    apply (highlight_flagsOk d p H).
  - destruct d as [c [xl cl sl dl] [xr cr sr dr]].
    unfold startDrag, flagsOk. rsimpl.
    destruct sl, sr, dl, dr, cl, cr; cbn; auto.
  - destruct d as [c [xl cl sl dl] [xr cr sr dr]].
    unfold stopDrag, flagsOk. rsimpl.
    destruct dl; rsimpl; [destruct (Qgtb xl xr)|]; rsimpl;
      (destruct dr; rsimpl;
       [match goal with |- context [Qltb ?a ?b] => destruct (Qltb a b) end|]);
      rsimpl; destruct sl, sr, cl, cr; cbn; auto.
  - rewrite setTrimPositions_unfold. cbv zeta. unfold flagsOk. rsimpl. auto.
  - intros _. reflexivity.
Qed.

Lemma reachable_flagsOk d : reachable d -> flagsOk d = true.
Proof.
  induction 1 as [c l r | d o _ IH].
  - reflexivity.
  - apply step_flagsOk, IH.
Qed.

(** X8.  In every state the drawer can reach, a handle that is being
    dragged is selected, and the two handles are never dragged at the
    same time. *)
Theorem drag_is_exclusive (d : TrimbarsDrawer.t) :
  reachable d ->
  (dragged (leftTrimBar d) = true -> selected (leftTrimBar d) = true) /\
  (dragged (rightTrimBar d) = true -> selected (rightTrimBar d) = true) /\
  dragged (leftTrimBar d) && dragged (rightTrimBar d) = false.
Proof.
  intros Hr. apply reachable_flagsOk in Hr.
  destruct d as [c [xl cl sl dl] [xr cr sr dr]].
  unfold flagsOk in Hr. cbv zeta in Hr. rsimpl.
  destruct sl, sr, dl, dr, cl, cr; cbn [implb andb negb isRed] in *;
    try discriminate Hr; repeat split; intros; try reflexivity; try assumption.
Qed.

Lemma drag_is_exclusive_witness :
  dragged (leftTrimBar Scenario.draggingLeft) = true /\
  selected (leftTrimBar Scenario.draggingLeft) = true /\
  dragged (rightTrimBar Scenario.draggingLeft) = false.
Proof.
  assert (Hr : reachable Scenario.draggingLeft).
  { unfold Scenario.draggingLeft, run. cbn [fold_left].
    repeat apply reach_step. apply reach_new. }
  destruct (drag_is_exclusive Scenario.draggingLeft Hr) as (Hl & _ & Hboth).
  assert (Hd : dragged (leftTrimBar Scenario.draggingLeft) = true)
    by (vm_compute; reflexivity).
  split; [exact Hd|]. split; [exact (Hl Hd)|].
  rewrite Hd in Hboth. exact Hboth.
Defined.

(** X9.  In every state the drawer can reach, right after a hover update
    or a pointer move each handle is red exactly when it is selected. *)
Theorem colour_shows_selection (d : TrimbarsDrawer.t) (p : MousePos) :
  reachable d ->
  (color (leftTrimBar (highlightTrimBarsWhenClose d p)) = red <->
   selected (leftTrimBar (highlightTrimBarsWhenClose d p)) = true) /\
  (color (rightTrimBar (highlightTrimBarsWhenClose d p)) = red <->
   selected (rightTrimBar (highlightTrimBarsWhenClose d p)) = true) /\
  (color (leftTrimBar (moveTrimBars d p)) = red <->
   selected (leftTrimBar (moveTrimBars d p)) = true) /\
  (color (rightTrimBar (moveTrimBars d p)) = red <->
   selected (rightTrimBar (moveTrimBars d p)) = true).
Proof.
  intros Hr. apply reachable_flagsOk in Hr.
  destruct (highlight_flagsOk d p Hr) as (_ & Hl & Hrt).
  destruct (moveTrimBars_flags d p) as (_ & -> & -> & -> & ->).
  revert Hl Hrt.
  generalize (highlightTrimBarsWhenClose d p) as h. intros h Hl Hrt.
  assert (Hred : forall c b, isRed c = b -> (c = red <-> b = true)).
  { intros [|] b <-; cbn; split; intros E; try reflexivity; discriminate E. }
  repeat split; apply Hred; assumption.
Qed.

Lemma colour_shows_selection_witness :
  color (leftTrimBar (moveTrimBars (TrimbarsDrawer.new Scenario.surface20 None None)
                        Scenario.betweenHandles)) = red /\
  color (rightTrimBar (moveTrimBars (TrimbarsDrawer.new Scenario.surface20 None None)
                         Scenario.betweenHandles)) <> red.
Proof.
  destruct (colour_shows_selection (TrimbarsDrawer.new Scenario.surface20 None None)
              Scenario.betweenHandles (reach_new _ _ _)) as (_ & _ & Hl & Hr).
  split.
  - apply Hl. vm_compute. reflexivity.
  - intros E. apply Hr in E. vm_compute in E. discriminate E.
Defined.

Lemma stopDrag_idle (d : TrimbarsDrawer.t) : isDragging d = false -> stopDrag d = d.
Proof.
  destruct d as [c [xl cl sl dl] [xr cr sr dr]].
  unfold isDragging, stopDrag. rsimpl.
  destruct dl, dr; cbn [orb]; intros H; try discriminate H; reflexivity.
Qed.

(** X10.  [stopDrag] ends every drag: afterwards no handle is dragged and
    a handle that was dragged is no longer selected.  If a handle was
    dragged, the bars are in order afterwards even when they were not
    before; if none was, nothing changes.  Releasing twice is the same as
    releasing once. *)
Theorem stopDrag_releases (d : TrimbarsDrawer.t) :
  isDragging (stopDrag d) = false /\
  (dragged (leftTrimBar d) = true -> selected (leftTrimBar (stopDrag d)) = false) /\
  (dragged (rightTrimBar d) = true -> selected (rightTrimBar (stopDrag d)) = false) /\
  (isDragging d = true ->
   x (leftTrimBar (stopDrag d)) <= x (rightTrimBar (stopDrag d))) /\
  (isDragging d = false -> stopDrag d = d) /\
  stopDrag (stopDrag d) = stopDrag d.
Proof.
  assert (Hidle : isDragging (stopDrag d) = false).
  { destruct d as [c [xl cl sl dl] [xr cr sr dr]].
    unfold isDragging, stopDrag. rsimpl.
    destruct dl; rsimpl; [destruct (Qgtb xl xr)|]; rsimpl;
      (destruct dr; rsimpl;
       [match goal with |- context [Qltb ?a ?b] => destruct (Qltb a b) end|]);
      reflexivity. }
  split; [exact Hidle|].
  split; [|split; [|split; [|split; [apply stopDrag_idle|apply stopDrag_idle, Hidle]]]];
    destruct d as [c [xl cl sl dl] [xr cr sr dr]];
    unfold isDragging, stopDrag; rsimpl.
  - intros ->. rsimpl. destruct (Qgtb xl xr); rsimpl;
      (destruct dr; rsimpl;
       [match goal with |- context [Qltb ?a ?b] => destruct (Qltb a b) end|]);
      reflexivity.
  - intros ->. destruct dl; rsimpl; [destruct (Qgtb xl xr)|]; rsimpl;
      match goal with |- context [Qltb ?a ?b] => destruct (Qltb a b) end;
      reflexivity.
  - destruct dl; rsimpl; [destruct (Qgtb xl xr) eqn:T1|]; rsimpl;
      (destruct dr; rsimpl;
       [match goal with |- context [Qltb ?a ?b] => destruct (Qltb a b) eqn:T2 end|]);
      rsimpl; cbn [orb]; intros H; try discriminate H; qprop;
      try assumption; try apply Qle_refl.
Qed.

(** X11.  While only one handle is dragged, a pointer move puts that
    handle at the pointer's x-coordinate clamped to the canvas, provided
    this does not pass the other handle; the other handle stays where it
    is. *)
Theorem drag_follows_pointer (d : TrimbarsDrawer.t) (p : MousePos) :
  let clampedX := Math.max 0 (Math.min (mx p) (cw d)) in
  (dragged (leftTrimBar d) = true -> dragged (rightTrimBar d) = false ->
   clampedX <= x (rightTrimBar d) ->
   x (leftTrimBar (moveTrimBars d p)) = clampedX /\
   x (rightTrimBar (moveTrimBars d p)) = x (rightTrimBar d)) /\
  (dragged (rightTrimBar d) = true -> dragged (leftTrimBar d) = false ->
   x (leftTrimBar d) <= clampedX ->
   x (rightTrimBar (moveTrimBars d p)) = clampedX /\
   x (leftTrimBar (moveTrimBars d p)) = x (leftTrimBar d)).
Proof.
  cbv zeta. unfold moveTrimBars, cw.
  destruct (highlight_x d p) as (Hxl & Hxr & Hc & Hdl & Hdr).
  rewrite <- Hxl, <- Hxr, <- Hc, <- Hdl, <- Hdr. clear Hxl Hxr Hc Hdl Hdr.
  generalize (highlightTrimBarsWhenClose d p) as h. intros h.
  fold (cw h).
  generalize (Math.max 0 (Math.min (mx p) (cw h))) as cx. intros cx.
  destruct h as [c [xl cl sl dl] [xr cr sr dr]]. unfold moveDragged. rsimpl.
  split.
  - intros -> -> Hle. apply Qleb_true in Hle. rsimpl. rewrite Hle. rsimpl.
    split; reflexivity.
  - intros -> -> Hle. apply Qleb_true in Hle. rsimpl. unfold Qgeb, Qleb in *.
    rewrite Hle. rsimpl. split; reflexivity.
Qed.

Lemma drag_follows_pointer_witness :
  x (leftTrimBar (moveTrimBars Scenario.draggingLeft {| mx := 250; my := 40 |})) = 250 /\
  x (rightTrimBar (moveTrimBars Scenario.draggingLeft {| mx := 250; my := 40 |})) = 300.
Proof.
  destruct (drag_follows_pointer Scenario.draggingLeft {| mx := 250; my := 40 |})
    as [H _].
  destruct H as [Hl Hr]; try (vm_compute; reflexivity).
  - apply Qle_bool_iff. vm_compute. reflexivity.
  - split; [rewrite Hl|rewrite Hr]; vm_compute; reflexivity.
Defined.

(** X12.  While no handle is dragged, a pointer move changes neither bar
    position and starts no drag: hovering only selects and colours. *)
Theorem hover_moves_nothing (d : TrimbarsDrawer.t) (p : MousePos) :
  isDragging d = false ->
  x (leftTrimBar (moveTrimBars d p)) = x (leftTrimBar d) /\
  x (rightTrimBar (moveTrimBars d p)) = x (rightTrimBar d) /\
  isDragging (moveTrimBars d p) = false.
Proof.
  unfold moveTrimBars, isDragging. cbv zeta.
  destruct (highlight_x d p) as (Hxl & Hxr & _ & Hdl & Hdr).
  rewrite <- Hxl, <- Hxr, <- Hdl, <- Hdr. clear Hxl Hxr Hdl Hdr.
  generalize (highlightTrimBarsWhenClose d p) as h. intros h.
  generalize (Math.max 0 (Math.min (mx p) (cw h))) as cx. intros cx.
  destruct h as [c [xl cl sl dl] [xr cr sr dr]]. unfold moveDragged. rsimpl.
  destruct dl, dr; cbn [orb]; intros H; try discriminate H.
  rsimpl. repeat split.
Qed.

Lemma hover_moves_nothing_witness :
  x (leftTrimBar (moveTrimBars (TrimbarsDrawer.new Scenario.surface20 None None)
                    Scenario.betweenHandles)) = 0 /\
  x (rightTrimBar (moveTrimBars (TrimbarsDrawer.new Scenario.surface20 None None)
                     Scenario.betweenHandles)) = N2Q 20.
Proof.
  destruct (hover_moves_nothing (TrimbarsDrawer.new Scenario.surface20 None None)
              Scenario.betweenHandles) as (Hl & Hr & _).
  - reflexivity.
  - split; [exact Hl|exact Hr].
Defined.

(** ** Waveform: the maximum, the bars and the peaks *)

(** The loop, one turn at a time. *)
Lemma scan_step (cd : list Q) endIx total step j peak :
  scan cd endIx total step j peak =
  if (j <? endIx)%nat && (j <? total)%nat
  then scan cd endIx total step (j + Pos.to_nat step)%nat
         match cd !! j with
         | Some v => if Qgtb (Math.abs v) peak then Math.abs v else peak
         | None => peak
         end
  else peak.
Proof.
  funelim (scan cd endIx total step j peak).
  - replace (j <? endIx)%nat with false by (symmetry; apply Nat.ltb_ge; lia).
    reflexivity.
  - replace (j <? endIx)%nat with true by (symmetry; apply Nat.ltb_lt; lia).
    replace (j <? totalSamples)%nat with true by (symmetry; apply Nat.ltb_lt; lia).
    reflexivity.
  - replace (j <? totalSamples)%nat with false by (symmetry; apply Nat.ltb_ge; lia).
    rewrite andb_false_r. reflexivity.
Qed.

Lemma scan_ext (cd cd' : list Q) endIx total total' step j peak :
  (forall k, (k < endIx)%nat -> cd !! k = cd' !! k) ->
  (forall k, (k < endIx)%nat -> ((k < total)%nat <-> (k < total')%nat)) ->
  scan cd endIx total step j peak = scan cd' endIx total' step j peak.
Proof.
  intros Hsame Htot.
  remember (endIx - j)%nat as n eqn:En.
  revert j peak En. induction n as [n IH] using lt_wf_ind. intros j peak En.
  rewrite (scan_step cd), (scan_step cd').
  destruct (j <? endIx)%nat eqn:Hj; [|reflexivity].
  apply Nat.ltb_lt in Hj.
  assert (Ht : (j <? total)%nat = (j <? total')%nat).
  { destruct (j <? total)%nat eqn:E1; destruct (j <? total')%nat eqn:E2;
      try reflexivity.
    - apply Nat.ltb_lt in E1. apply Nat.ltb_ge in E2.
      apply (Htot j Hj) in E1. lia.
    - apply Nat.ltb_ge in E1. apply Nat.ltb_lt in E2.
      apply (Htot j Hj) in E2. lia. }
  rewrite <- Ht. cbn [andb].
  destruct (j <? total)%nat; [|reflexivity].
  rewrite <- (Hsame j Hj).
  pose proof (Pos2Nat.is_pos step).
  apply (IH (endIx - (j + Pos.to_nat step))%nat); [lia|reflexivity].
Qed.

Lemma max_from (values : list Q) (a : Q) :
  exists m,
    fold_left (fun m v => if WaveformRender.exceeds v m
                          then WaveformRender.Finite v else m)
              values (WaveformRender.Finite a) = WaveformRender.Finite m /\
    (m = a \/ In m values) /\ a <= m /\ (forall v, In v values -> v <= m).
Proof.
  revert a. induction values as [|v values IH]; intros a.
  - exists a. cbn. split; [reflexivity|]. split; [left; reflexivity|].
    split; [apply Qle_refl|]. intros v [].
  - cbn [fold_left WaveformRender.exceeds].
    destruct (Qgtb v a) eqn:T; qprop.
    + destruct (IH v) as (m & -> & Hin & Hge & Hall). exists m.
      split; [reflexivity|]. split.
      { right. destruct Hin as [->|Hin]; [left; reflexivity|right; exact Hin]. }
      split; [eapply Qle_trans; [apply Qlt_le_weak, T|exact Hge]|].
      intros v' [<-|Hv']; [exact Hge|apply Hall, Hv'].
    + destruct (IH a) as (m & -> & Hin & Hge & Hall). exists m.
      split; [reflexivity|]. split.
      { destruct Hin as [->|Hin]; [left; reflexivity|right; right; exact Hin]. }
      split; [exact Hge|].
      intros v' [<-|Hv']; [eapply Qle_trans; [exact T|exact Hge]|apply Hall, Hv'].
Qed.

(** X13.  [max] of an empty array is [-Infinity]; of a non-empty array it
    is an element of the array that no element exceeds. *)
Theorem max_is_greatest (values : list Q) :
  (values = [] -> WaveformRender.max values = WaveformRender.NegInfinity) /\
  (values <> [] ->
   exists m, WaveformRender.max values = WaveformRender.Finite m /\
             In m values /\ forall v, In v values -> v <= m).
Proof.
  split.
  - intros ->. reflexivity.
  - intros Hne. destruct values as [|v values]; [congruence|].
    unfold WaveformRender.max. cbn [fold_left WaveformRender.exceeds].
    destruct (max_from values v) as (m & -> & Hin & Hge & Hall).
    exists m. split; [reflexivity|]. split.
    + destruct Hin as [->|Hin]; [left; reflexivity|right; exact Hin].
    + intros v' [<-|Hv']; [exact Hge|apply Hall, Hv'].
Qed.

Lemma max_is_greatest_witness :
  exists m, WaveformRender.max [3#4; 1#4; 1] = WaveformRender.Finite m /\
            In m [3#4; 1#4; 1] /\ 3#4 <= m.
Proof.
  destruct (max_is_greatest [3#4; 1#4; 1]) as [_ H].
  destruct H as (m & Hm & Hin & Hall); [discriminate|].
  exists m. split; [exact Hm|]. split; [exact Hin|].
  apply Hall. left. reflexivity.
Defined.

Lemma peaksOf_in (cd : list Q) displayWidth sampleStep p :
  In p (peaksOf cd displayWidth sampleStep) ->
  p = 0 \/ exists j v, cd !! j = Some v /\ p = Qabs v.
Proof.
  unfold peaksOf. intros Hin. apply in_map_iff in Hin.
  destruct Hin as (i & <- & _).
  match goal with
  | |- columnPeak ?c ?ss ?st ?i = 0 \/ _ =>
      destruct (columnPeak_spec c ss st i) as (_ & _ & [E|(j & v & _ & Hv & E)])
  end.
  - left. exact E.
  - right. exists j, v. split; assumption.
Qed.

(** X14.  If every sample of the channel has absolute value at most [M],
    every peak lies between 0 and [M]; for decoded audio, whose samples
    lie in [[-1, 1]], the peaks lie in [[0, 1]]. *)
Theorem peaks_bounded_by_samples (cd : list Q) (displayWidth : nat)
    (sampleStep : option positive) (M : Q) :
  0 <= M ->
  (forall v, In v cd -> Qabs v <= M) ->
  forall p, In p (peaksOf cd displayWidth sampleStep) -> 0 <= p /\ p <= M.
Proof.
  intros HM Hall p Hin.
  destruct (peaksOf_in cd displayWidth sampleStep p Hin) as [->|(j & v & Hv & ->)].
  - split; [apply Qle_refl|exact HM].
  - split; [apply Qabs_nonneg|].
    apply Hall. apply list_elem_of_In. eapply list_elem_of_lookup_2. exact Hv.
Qed.

Lemma peaks_bounded_by_samples_witness :
  List.Forall (fun p => 0 <= p /\ p <= 1)
    (peaksOf (AudioBuffer.channelData0 Scenario.sixFrames) 3 None).
Proof.
  apply List.Forall_forall.
  apply (peaks_bounded_by_samples (AudioBuffer.channelData0 Scenario.sixFrames) 3 None 1).
  - apply Qle_bool_iff. reflexivity.
  - intros v Hv. cbn in Hv.
    repeat (destruct Hv as [<-|Hv]; [apply Qle_bool_iff; reflexivity|]).
    destruct Hv.
Defined.

(** X15.  With a sample step of 1 the peaks are exact: peak [i] is at
    least the absolute value of every frame of its column
    [[i*sampleSize, (i+1)*sampleSize)]. *)
Theorem peaks_exact_with_unit_step (cd : list Q) (displayWidth i j : nat) (v : Q) :
  let sampleSize := (length cd / displayWidth)%nat in
  (i < displayWidth)%nat ->
  (i * sampleSize <= j)%nat -> (j < (i + 1) * sampleSize)%nat ->
  cd !! j = Some v ->
  exists p, peaksOf cd displayWidth (Some 1%positive) !! i = Some p /\ Qabs v <= p.
Proof.
  intros sampleSize Hi Hlo Hhi Hv.
  unfold peaksOf, sampleSizeOf, stepOf. fold sampleSize.
  rewrite lookup_map_seq by exact Hi. cbn [Nat.add].
  eexists. split; [reflexivity|].
  destruct (columnPeak_spec cd sampleSize 1%positive i) as (_ & Hall & _).
  apply (Hall j v); [|exact Hv].
  unfold inColumn. repeat split; try assumption.
  - apply lookup_lt_Some in Hv. exact Hv.
  - exists (j - i * sampleSize)%nat. change (Pos.to_nat 1) with 1%nat. lia.
Qed.

Lemma peaks_exact_with_unit_step_witness :
  exists p, peaksOf (AudioBuffer.channelData0 Scenario.sixFrames) 3 (Some 1%positive)
              !! 0%nat = Some p /\ Qabs (-(3#4)) <= p.
Proof.
  apply (peaks_exact_with_unit_step
           (AudioBuffer.channelData0 Scenario.sixFrames) 3 0 1 (-(3#4)));
    cbn; try lia; reflexivity.
Defined.

(** X16.  The frames from index [width * sampleSize] on, the remainder of
    the division of the frame count by the width, are never read: two
    channels of the same length that agree below that index give the same
    peaks. *)
Theorem peaks_ignore_trailing_frames (cd cd' : list Q) (displayWidth : nat)
    (sampleStep : option positive) :
  length cd = length cd' ->
  (forall j, (j < displayWidth * (length cd / displayWidth))%nat ->
             cd !! j = cd' !! j) ->
  peaksOf cd displayWidth sampleStep = peaksOf cd' displayWidth sampleStep.
Proof.
  intros Hlen Hsame. unfold peaksOf, sampleSizeOf. rewrite <- Hlen.
  generalize (stepOf sampleStep (length cd / displayWidth)) as step. intros step.
  apply map_ext_in. intros i Hi. apply in_seq in Hi.
  unfold columnPeak. rewrite <- Hlen.
  apply scan_ext.
  - intros k Hk. apply Hsame. nia.
  - intros k _. reflexivity.
Qed.

Lemma peaks_ignore_trailing_frames_witness :
  peaksOf [1#2; -(3#4); 1#4; -(1#8); 9] 2 None
    = peaksOf [1#2; -(3#4); 1#4; -(1#8); 0] 2 None.
Proof.
  apply (peaks_ignore_trailing_frames [1#2; -(3#4); 1#4; -(1#8); 9]
           [1#2; -(3#4); 1#4; -(1#8); 0] 2 None).
  - reflexivity.
  - intros j Hj. cbn in Hj.
    do 4 (destruct j as [|j]; [reflexivity|]). lia.
Defined.

Lemma barsOf_imap (fx fy fw fh : nat -> Q -> Q) (l : list Q) :
  WaveformRender.barsOf
    (imap (fun i p => WaveformRender.FillRect (fx i p) (fy i p) (fw i p) (fh i p)) l)
  = imap (fun i p => (fx i p, fy i p, fw i p, fh i p)) l.
Proof.
  revert fx fy fw fh. induction l as [|p l IH]; intros fx fy fw fh.
  - reflexivity.
  - cbn [imap WaveformRender.barsOf flat_map app].
    f_equal.
    apply (IH (fun i => fx (S i)) (fun i => fy (S i))
              (fun i => fw (S i)) (fun i => fh (S i))).
Qed.

Lemma rounded_scale_nonneg (rnd : Q -> Q) (m h : Q) :
  Rounded.monotone rnd -> Rounded.representable rnd 0 ->
  0 <= h -> 0 <= m ->
  0 <= WaveformRender.scaleOf rnd (WaveformRender.Finite m) h.
Proof.
  intros Hm H0 Hh Hm0. unfold WaveformRender.scaleOf.
  destruct (Qgtb m 0); [|apply Qle_refl].
  unfold Rounded.div, Rounded.mul.
  apply rounded_nonneg; [exact Hm|exact H0|].
  unfold Qdiv. apply Qmult_le_0_compat; [exact Hh|].
  apply Qinv_le_0_compat.
  apply rounded_nonneg; [exact Hm|exact H0|].
  apply Qmult_le_0_compat; [|exact Hm0].
  apply Qle_bool_iff. reflexivity.
Qed.

(** The rectangle of one peak, for a scale that is not negative. *)
Lemma rounded_bar (rnd : Q -> Q) (half scale p : Q) :
  Rounded.monotone rnd -> Rounded.representable rnd 0 ->
  0 <= scale -> 0 <= p ->
  0 <= Rounded.mul rnd (Rounded.mul rnd p scale) 2 /\
  Rounded.sub rnd half (Rounded.mul rnd p scale) <= rnd half /\
  (p == 0 ->
   Rounded.mul rnd (Rounded.mul rnd p scale) 2 == 0 /\
   Rounded.sub rnd half (Rounded.mul rnd p scale) == rnd half).
Proof.
  intros Hm H0 Hsc Hp.
  assert (Hsp : 0 <= Rounded.mul rnd p scale).
  { apply (rounded_nonneg rnd (p * scale) Hm H0).
    apply Qmult_le_0_compat; assumption. }
  split; [|split].
  - apply (rounded_nonneg rnd (Rounded.mul rnd p scale * 2) Hm H0).
    apply Qmult_le_0_compat; [exact Hsp|]. apply Qle_bool_iff. reflexivity.
  - unfold Rounded.representable in H0.
    unfold Rounded.sub. apply Hm. revert Hsp. generalize (Rounded.mul rnd p scale) as t.
    intros t Ht. lra.
  - intros Ep. unfold Rounded.representable in H0.
    assert (Ez : Rounded.mul rnd p scale == 0).
    { unfold Rounded.mul. apply (Qeq_trans _ (rnd 0)); [|exact H0].
      apply rounded_compat; [exact Hm|]. rewrite Ep. ring. }
    revert Ez. generalize (Rounded.mul rnd p scale) as t. intros t Ez.
    unfold Rounded.mul, Rounded.sub. split.
    + apply (Qeq_trans _ (rnd 0)); [|exact H0].
      apply rounded_compat; [exact Hm|]. rewrite Ez. ring.
    + apply rounded_compat; [exact Hm|]. rewrite Ez. ring.
Qed.

(** A greater peak gets a bar that is at least as tall and starts at
    least as high. *)
Lemma rounded_bar_mono (rnd : Q -> Q) (half scale p q : Q) :
  Rounded.monotone rnd -> 0 <= scale -> p <= q ->
  Rounded.mul rnd (Rounded.mul rnd p scale) 2
    <= Rounded.mul rnd (Rounded.mul rnd q scale) 2 /\
  Rounded.sub rnd half (Rounded.mul rnd q scale)
    <= Rounded.sub rnd half (Rounded.mul rnd p scale).
Proof.
  intros Hm Hsc Hpq.
  assert (Hs : Rounded.mul rnd p scale <= Rounded.mul rnd q scale).
  { unfold Rounded.mul. apply Hm. apply Qmult_le_compat_r; assumption. }
  revert Hs.
  generalize (Rounded.mul rnd p scale) as t, (Rounded.mul rnd q scale) as u.
  intros t u Hs. unfold Rounded.mul, Rounded.sub. split; apply Hm; lra.
Qed.

(** X17.  [drawWave()] on an initialised drawer whose peaks are not
    negative draws one bar per peak, at x = 0, 1, 2, ..., one pixel wide.
    Under every rounding of the operations that is monotone, idempotent
    and keeps 0 (exact arithmetic and binary64 alike): no bar has a
    negative height and no bar starts below the middle line
    [halfHeight]; a peak of 0 gives a bar of height 0 on the middle line,
    so that a silent buffer is drawn without a division by zero; and a
    greater peak gets a bar that is at least as tall and starts at least
    as high. *)
Theorem drawWave_bars_follow_peaks
    (rnd : Q -> Q) (w : WaveformDrawer.t) (color : string) (startY : Q) :
  Rounded.monotone rnd -> Rounded.representable rnd 0 -> Rounded.idempotent rnd ->
  peaks w <> [] ->
  (forall p, In p (peaks w) -> 0 <= p) ->
  let halfHeight := Rounded.div rnd (Utils.nat2Q (displayHeight w)) 2 in
  exists cmds,
    WaveformRender.drawWave rnd w true color startY None = Some cmds /\
    length (WaveformRender.barsOf cmds) = length (peaks w) /\
    (forall i p,
       peaks w !! i = Some p ->
       exists top ht,
         WaveformRender.barsOf cmds !! i = Some (Utils.nat2Q i, top, 1, ht) /\
         0 <= ht /\ top <= halfHeight /\
         (p == 0 -> ht == 0 /\ top == halfHeight)) /\
    (forall i j p q xi ti wi hi xj tj wj hj,
       peaks w !! i = Some p -> peaks w !! j = Some q -> p <= q ->
       WaveformRender.barsOf cmds !! i = Some (xi, ti, wi, hi) ->
       WaveformRender.barsOf cmds !! j = Some (xj, tj, wj, hj) ->
       hi <= hj /\ tj <= ti).
Proof.
  intros Hm H0 Hid Hne Hpos halfHeight.
  set (h := Utils.nat2Q (displayHeight w)) in *.
  assert (Hh : 0 <= h).
  { unfold h, Utils.nat2Q. change 0 with (inject_Z 0). rewrite <- Zle_Qle. lia. }
  assert (Hhalf : rnd halfHeight == halfHeight) by apply Hid.
  unfold WaveformRender.drawWave. cbn [negb orb].
  destruct (peaks w) as [|p0 ps] eqn:Epeaks; [congruence|].
  rewrite <- Epeaks in *. clear Hne.
  replace (length (peaks w) =? 0)%nat with false
    by (rewrite Epeaks; reflexivity).
  cbv zeta. fold h. fold halfHeight.
  assert (Hmax : exists m,
            WaveformRender.max (peaks w) = WaveformRender.Finite m /\
            In m (peaks w)).
  { rewrite Epeaks. unfold WaveformRender.max.
    cbn [fold_left WaveformRender.exceeds].
    destruct (max_from ps p0) as (m & -> & Hin & _).
    exists m. split; [reflexivity|].
    destruct Hin as [->|Hin]; [left; reflexivity|right; exact Hin]. }
  destruct Hmax as (m & -> & Hmin).
  pose proof (rounded_scale_nonneg rnd m h Hm H0 Hh (Hpos m Hmin)) as Hsc.
  revert Hsc.
  generalize (WaveformRender.scaleOf rnd (WaveformRender.Finite m) h) as sc.
  intros sc Hsc.
  eexists. split; [reflexivity|].
  unfold WaveformRender.barsOf at 1 2 3 4.
  rewrite !flat_map_app. cbn [flat_map app].
  rewrite app_nil_r.
  pose proof (barsOf_imap
    (fun i _ => Utils.nat2Q i)
    (fun _ peak => Rounded.sub rnd halfHeight (Rounded.mul rnd peak sc))
    (fun _ _ => 1)
    (fun _ peak => Rounded.mul rnd (Rounded.mul rnd peak sc) 2)
    (peaks w)) as Hbars.
  unfold WaveformRender.barsOf in Hbars. rewrite Hbars. clear Hbars.
  clear Epeaks p0 ps Hmin.
  split; [apply length_imap|].
  split.
  - intros i p Ep.
    assert (Hp : 0 <= p).
    { apply Hpos, list_elem_of_In. eapply list_elem_of_lookup_2. exact Ep. }
    destruct (rounded_bar rnd halfHeight sc p Hm H0 Hsc Hp) as (A & B & C).
    do 2 eexists. rewrite list_lookup_imap, Ep. cbn [fmap option_fmap option_map].
    split; [reflexivity|].
    split; [exact A|].
    split.
    { apply (Qle_trans _ (rnd halfHeight)); [exact B|].
      apply Qle_lteq. right. exact Hhalf. }
    intros Ez. destruct (C Ez) as [C1 C2].
    split; [exact C1|]. exact (Qeq_trans _ _ _ C2 Hhalf).
  - intros i j p q xi ti wi hi xj tj wj hj Ep Eq Hpq Hi Hj.
    rewrite list_lookup_imap, Ep in Hi. rewrite list_lookup_imap, Eq in Hj.
    cbn in Hi, Hj. injection Hi as <- <- <- <-. injection Hj as <- <- <- <-.
    apply rounded_bar_mono; assumption.
Qed.

Section BarsInBinary64.
Import PrimFloat.
#[local] Set Warnings "-inexact-float".

(** The bars fit the height only up to rounding: in binary64, for the
    height 100 and the single peak 0.09385958313941956, the scaled peak is
    50.00000000000001, so that the bar starts at -7.1e-15 and is
    100.00000000000001 high. *)
Example bar_can_pass_height_in_binary64 :
  Binary64.bar 100 0.09385958313941956 0.09385958313941956
    = (-7.105427357601002e-15, 100.00000000000001)%float.
Proof.
  vm_compute. reflexivity.
Qed.

End BarsInBinary64.

(** ** Engine: playing, MIDI notes, trimming, clearing and volume *)

Lemma sampleAt_lookup (e : SamplerEngine.t) (index : Z) (s : SoundSample.t) :
  (0 <= index)%Z ->
  SamplerEngine.samples e !! Z.to_nat index = Some (Some s) ->
  SamplerEngine.sampleAt e index = Some s.
Proof.
  intros H0 Hs. unfold SamplerEngine.sampleAt.
  replace (index <? 0)%Z with false by (symmetry; apply Z.ltb_ge; exact H0).
  rewrite Hs. reflexivity.
Qed.

Lemma play_loaded_form (s : SoundSample.t) (b : AudioBuffer.t) (hasDestination : bool) :
  SoundSample.loaded s = true ->
  SoundSample.decodedBuffer s = Some b ->
  exists src msg,
    SoundSample.play s true hasDestination =
      ([AudioStart src; ConsoleLog msg], Returned (Some src)) /\
    source_buffer src = b /\
    source_target src = (if hasDestination then ToMasterGain else ToContextDestination).
Proof.
  intros Hl Hb. unfold SoundSample.play. rewrite Hl, Hb.
  destruct (Qgtb (SoundSample.duration s) 0 &&
            Qltb (SoundSample.duration s) (AudioBuffer.duration b));
    do 2 eexists; (split; [reflexivity|]); split; reflexivity.
Qed.

Lemma playSound_loaded_unfold
    (e : SamplerEngine.t) (index : Z) (s : SoundSample.t) (b : AudioBuffer.t) :
  (0 <= index < SamplerEngine.padCount e)%Z ->
  SamplerEngine.samples e !! Z.to_nat index = Some (Some s) ->
  SoundSample.loaded s = true ->
  SoundSample.decodedBuffer s = Some b ->
  SamplerEngine.hasAudioContext e = true ->
  SamplerEngine.playSound e index =
    {| SamplerEngine.engine := e;
       SamplerEngine.effects :=
         fst (SoundSample.play s true (SamplerEngine.hasMasterGain e))
         ++ map (fun cb => PlayEvent cb index) (SamplerEngine.playCallbacks e);
       SamplerEngine.completion := Returned tt |}.
Proof.
  intros [H0 Hpc] Hs Hl Hb Hctx. unfold SamplerEngine.playSound.
  replace (index <? 0)%Z with false by (symmetry; apply Z.ltb_ge; exact H0).
  replace (index >=? SamplerEngine.padCount e)%Z with false
    by (symmetry; rewrite Z.geb_leb; apply Z.leb_gt; exact Hpc).
  cbn [orb].
  rewrite (sampleAt_lookup e index s H0 Hs).
  unfold SoundSample.isLoaded. rewrite Hl, Hctx.
  destruct (play_loaded_form s b (SamplerEngine.hasMasterGain e) Hl Hb)
    as (src & msg & -> & _).
  reflexivity.
Qed.

(** X18.  [playSound] on a pad inside the range that holds a loaded
    sample, with the audio context created, starts exactly one source on
    that sample's buffer, connected to the master gain when there is one,
    then notifies every play subscriber once, in the order of
    registration; the engine itself does not change.  A subscriber added
    with [onPlay] is notified after the earlier ones. *)
Theorem playSound_loaded_notifies
    (e : SamplerEngine.t) (index : Z) (s : SoundSample.t) (b : AudioBuffer.t) :
  (0 <= index < SamplerEngine.padCount e)%Z ->
  SamplerEngine.samples e !! Z.to_nat index = Some (Some s) ->
  SoundSample.loaded s = true ->
  SoundSample.decodedBuffer s = Some b ->
  SamplerEngine.hasAudioContext e = true ->
  SamplerEngine.engine (SamplerEngine.playSound e index) = e /\
  SamplerEngine.completion (SamplerEngine.playSound e index) = Returned tt /\
  (exists src msg,
     SamplerEngine.effects (SamplerEngine.playSound e index) =
       [AudioStart src; ConsoleLog msg]
       ++ map (fun cb => PlayEvent cb index) (SamplerEngine.playCallbacks e) /\
     source_buffer src = b /\
     source_target src =
       (if SamplerEngine.hasMasterGain e then ToMasterGain else ToContextDestination)) /\
  (forall cb,
     SamplerEngine.effects (SamplerEngine.playSound (EngineAdmin.onPlay e cb) index) =
     SamplerEngine.effects (SamplerEngine.playSound e index) ++ [PlayEvent cb index]).
Proof.
  intros Hrange Hs Hl Hb Hctx.
  rewrite (playSound_loaded_unfold e index s b Hrange Hs Hl Hb Hctx).
  cbn [SamplerEngine.engine SamplerEngine.completion SamplerEngine.effects].
  split; [reflexivity|]. split; [reflexivity|]. split.
  - destruct (play_loaded_form s b (SamplerEngine.hasMasterGain e) Hl Hb)
      as (src & msg & -> & Hsb & Hst).
    exists src, msg. repeat split; assumption.
  - intros cb.
    rewrite (playSound_loaded_unfold (EngineAdmin.onPlay e cb) index s b
               Hrange Hs Hl Hb Hctx).
    cbn [SamplerEngine.effects EngineAdmin.onPlay EngineAdmin.with_playCallbacks
         SamplerEngine.playCallbacks SamplerEngine.hasMasterGain].
    rewrite map_app, app_assoc. reflexivity.
Qed.

Lemma playSound_loaded_notifies_witness :
  SamplerEngine.engine (SamplerEngine.playSound Scenario.engine16 0) = Scenario.engine16 /\
  SamplerEngine.effects (SamplerEngine.playSound (EngineAdmin.onPlay Scenario.engine16 9%nat) 0) =
    SamplerEngine.effects (SamplerEngine.playSound Scenario.engine16 0) ++ [PlayEvent 9%nat 0].
Proof.
  destruct (playSound_loaded_notifies Scenario.engine16 0 Scenario.kick Scenario.fourSeconds)
    as (He & _ & _ & Hcb); try reflexivity.
  - cbn. lia.
  - split; [exact He|apply Hcb].
Defined.

(** X19.  [playByMidiNote] ignores, without any warning or other effect,
    every note outside [[baseNote, baseNote + padCount)]; a note inside
    plays pad [midiNote - baseNote] exactly as [playSound] does. *)
Theorem playByMidiNote_maps_notes (e : SamplerEngine.t) (midiNote baseNote : Z) :
  ((midiNote < baseNote)%Z \/ (baseNote + SamplerEngine.padCount e <= midiNote)%Z ->
   EngineAdmin.playByMidiNote e midiNote baseNote =
     {| SamplerEngine.engine := e; SamplerEngine.effects := [];
        SamplerEngine.completion := Returned tt |}) /\
  ((baseNote <= midiNote < baseNote + SamplerEngine.padCount e)%Z ->
   EngineAdmin.playByMidiNote e midiNote baseNote =
     SamplerEngine.playSound e (midiNote - baseNote)).
Proof.
  unfold EngineAdmin.playByMidiNote. cbv zeta. split.
  - intros H.
    destruct (midiNote - baseNote >=? 0)%Z eqn:E1;
      destruct (midiNote - baseNote <? SamplerEngine.padCount e)%Z eqn:E2;
      try reflexivity.
    rewrite Z.geb_leb in E1. apply Z.leb_le in E1. apply Z.ltb_lt in E2. lia.
  - intros H.
    replace (midiNote - baseNote >=? 0)%Z with true
      by (symmetry; rewrite Z.geb_leb; apply Z.leb_le; lia).
    replace (midiNote - baseNote <? SamplerEngine.padCount e)%Z with true
      by (symmetry; apply Z.ltb_lt; lia).
    reflexivity.
Qed.

Lemma playByMidiNote_maps_notes_witness :
  EngineAdmin.playByMidiNote Scenario.engine16 52 36 =
    {| SamplerEngine.engine := Scenario.engine16; SamplerEngine.effects := [];
       SamplerEngine.completion := Returned tt |} /\
  EngineAdmin.playByMidiNote Scenario.engine16 36 36 =
    SamplerEngine.playSound Scenario.engine16 0.
Proof.
  destruct (playByMidiNote_maps_notes Scenario.engine16 52 36) as [Hout _].
  destruct (playByMidiNote_maps_notes Scenario.engine16 36 36) as [_ Hin].
  split; [apply Hout; right; cbn; lia|apply Hin; cbn; lia].
Defined.

Lemma sampleAt_insert (e : SamplerEngine.t) (i : nat) (v : option SoundSample.t) (j : Z) :
  (i < length (SamplerEngine.samples e))%nat ->
  SamplerEngine.sampleAt
    (SamplerEngine.with_samples e (<[i := v]> (SamplerEngine.samples e))) j =
  if (j =? Z.of_nat i)%Z then v else SamplerEngine.sampleAt e j.
Proof.
  intros Hi. unfold SamplerEngine.sampleAt.
  cbn [SamplerEngine.samples SamplerEngine.with_samples].
  destruct (j <? 0)%Z eqn:Hneg.
  - apply Z.ltb_lt in Hneg.
    replace (j =? Z.of_nat i)%Z with false by (symmetry; apply Z.eqb_neq; lia).
    reflexivity.
  - apply Z.ltb_ge in Hneg.
    destruct (j =? Z.of_nat i)%Z eqn:E.
    + apply Z.eqb_eq in E. subst j. rewrite Nat2Z.id.
      rewrite list_lookup_insert_eq by exact Hi. destruct v; reflexivity.
    + apply Z.eqb_neq in E.
      rewrite list_lookup_insert_ne by lia. reflexivity.
Qed.

Lemma loaded_count_insert (l : list (option SoundSample.t)) (n : nat)
    (s s' : SoundSample.t) :
  l !! n = Some (Some s) ->
  SoundSample.isLoaded s' = SoundSample.isLoaded s ->
  length (List.filter EngineAdmin.isLoadedSlot (<[n := Some s']> l))
    = length (List.filter EngineAdmin.isLoadedSlot l).
Proof.
  intros Hn Hsame. revert n Hn.
  induction l as [|a l IH]; intros n Hn; [discriminate Hn|].
  destruct n as [|n].
  - change (<[0%nat := Some s']> (a :: l)) with (Some s' :: l).
    cbn in Hn. injection Hn as ->.
    cbn [List.filter EngineAdmin.isLoadedSlot]. rewrite Hsame.
    destruct (SoundSample.isLoaded s); reflexivity.
  - change (<[S n := Some s']> (a :: l)) with (a :: <[n := Some s']> l).
    cbn [List.filter]. cbn in Hn.
    destruct (EngineAdmin.isLoadedSlot a); cbn [length]; rewrite (IH n Hn); reflexivity.
Qed.

(** X20.  [updateTrimBars] on a loaded pad stores the positions on that
    pad only: [getTrimSettings] of the pad then returns the new pixel
    positions with the window computed from them, and every other pad
    reads as before; the call returns normally and the number of pads and
    of loaded samples does not change. *)
Theorem updateTrimBars_stores
    (e : SamplerEngine.t) (index : Z) (s : SoundSample.t) (leftX rightX w : Q) :
  (0 <= index)%Z ->
  SamplerEngine.samples e !! Z.to_nat index = Some (Some s) ->
  SoundSample.loaded s = true ->
  let o := SamplerEngine.updateTrimBars e index leftX rightX w in
  let s' := SoundSample.setTrimPositions s leftX rightX w in
  SamplerEngine.completion o = Returned tt /\
  SamplerEngine.getTrimSettings (SamplerEngine.engine o) index =
    Some (SoundSample.startOffset s', SoundSample.duration s', leftX, rightX) /\
  (forall j, j <> index ->
     SamplerEngine.sampleAt (SamplerEngine.engine o) j = SamplerEngine.sampleAt e j) /\
  SamplerEngine.padCount (SamplerEngine.engine o) = SamplerEngine.padCount e /\
  length (SamplerEngine.samples (SamplerEngine.engine o))
    = length (SamplerEngine.samples e) /\
  EngineAdmin.getLoadedCount (SamplerEngine.engine o) = EngineAdmin.getLoadedCount e.
Proof.
  intros H0 Hs Hl o s'.
  assert (Hlen : (Z.to_nat index < length (SamplerEngine.samples e))%nat)
    by (eapply lookup_lt_Some; exact Hs).
  assert (Ho : o = {| SamplerEngine.engine :=
                        SamplerEngine.with_samples e
                          (<[Z.to_nat index := Some s']> (SamplerEngine.samples e));
                      SamplerEngine.effects :=
                        [ConsoleLog (MsgTrimUpdated index
                           (SoundSample.startOffset s') (SoundSample.duration s')
                           (SoundSample.leftTrimPosition s')
                           (SoundSample.rightTrimPosition s'))];
                      SamplerEngine.completion := Returned tt |}).
  { unfold o, SamplerEngine.updateTrimBars.
    rewrite (sampleAt_lookup e index s H0 Hs).
    unfold SoundSample.isLoaded. rewrite Hl. reflexivity. }
  rewrite Ho. cbn [SamplerEngine.engine SamplerEngine.completion].
  split; [reflexivity|]. split.
  { unfold SamplerEngine.getTrimSettings.
    rewrite (sampleAt_insert e (Z.to_nat index) (Some s') index Hlen).
    rewrite Z2Nat.id by exact H0. rewrite Z.eqb_refl.
    unfold SoundSample.isLoaded.
    change (SoundSample.loaded s') with (SoundSample.loaded s). rewrite Hl.
    reflexivity. }
  split.
  { intros j Hj.
    rewrite (sampleAt_insert e (Z.to_nat index) (Some s') j Hlen).
    rewrite Z2Nat.id by exact H0.
    replace (j =? index)%Z with false by (symmetry; apply Z.eqb_neq; exact Hj).
    reflexivity. }
  split; [reflexivity|].
  unfold SamplerEngine.with_samples. cbn [SamplerEngine.samples].
  split; [apply length_insert|].
  unfold EngineAdmin.getLoadedCount. cbn [SamplerEngine.samples].
  apply (loaded_count_insert _ _ s s' Hs). reflexivity.
Qed.

Lemma updateTrimBars_stores_witness :
  SamplerEngine.getTrimSettings
    (SamplerEngine.engine (SamplerEngine.updateTrimBars Scenario.engine16 0 200 600 800)) 0 =
    Some (SoundSample.startOffset (SoundSample.setTrimPositions Scenario.kick 200 600 800),
          SoundSample.duration (SoundSample.setTrimPositions Scenario.kick 200 600 800),
          200, 600).
Proof.
  assert (H0 : (0 <= 0)%Z) by lia.
  pose proof (updateTrimBars_stores Scenario.engine16 0 Scenario.kick 200 600 800
                H0 eq_refl eq_refl) as (_ & H & _).
  exact H.
Defined.

Lemma sampleAt_arraySet (e : SamplerEngine.t) (i : nat) (j : Z) :
  SamplerEngine.sampleAt
    (SamplerEngine.with_samples e (EngineAdmin.arraySet (SamplerEngine.samples e) i None)) j =
  if (j =? Z.of_nat i)%Z then None else SamplerEngine.sampleAt e j.
Proof.
  unfold EngineAdmin.arraySet.
  destruct (i <? length (SamplerEngine.samples e))%nat eqn:Hi.
  - apply Nat.ltb_lt in Hi. apply sampleAt_insert, Hi.
  - apply Nat.ltb_ge in Hi. unfold SamplerEngine.sampleAt.
    unfold SamplerEngine.with_samples. cbn [SamplerEngine.samples].
    destruct (j <? 0)%Z eqn:Hneg.
    + destruct (j =? Z.of_nat i)%Z; reflexivity.
    + apply Z.ltb_ge in Hneg.
      generalize (SamplerEngine.samples e), Hi. clear Hi. intros l Hi.
      destruct (Nat.lt_ge_cases (Z.to_nat j) (length l)) as [Hlt|Hge].
      * rewrite lookup_app_l by exact Hlt.
        replace (j =? Z.of_nat i)%Z with false
          by (symmetry; apply Z.eqb_neq; lia).
        reflexivity.
      * rewrite lookup_app_r by exact Hge.
        rewrite (lookup_ge_None_2 l (Z.to_nat j) Hge).
        assert (Hnone : forall k, (replicate (i - length l) (@None SoundSample.t)
                                     ++ [None]) !! k = Some None \/
                                  (replicate (i - length l) (@None SoundSample.t)
                                     ++ [None]) !! k = None).
        { intros k.
          destruct ((replicate (i - length l) (@None SoundSample.t) ++ [None]) !! k)
            as [v|] eqn:Ek; [left|right; reflexivity].
          apply list_elem_of_lookup_2, elem_of_app in Ek.
          destruct Ek as [Ek|Ek].
          - apply elem_of_replicate in Ek. destruct Ek as [-> _]. reflexivity.
          - apply list_elem_of_singleton in Ek. subst v. reflexivity. }
        destruct (Hnone (Z.to_nat j - length l)%nat) as [->| ->];
          destruct (j =? Z.of_nat i)%Z; reflexivity.
Qed.

Lemma clearAll_fold (k : nat) :
  forall (a : nat) (e0 : SamplerEngine.t) (fx0 : list Effect),
    let r := fold_left EngineAdmin.clearAllStep (seq a k) (e0, fx0) in
    (forall j, SamplerEngine.sampleAt (fst r) j =
               if (Z.of_nat a <=? j)%Z && (j <? Z.of_nat (a + k))%Z
               then None else SamplerEngine.sampleAt e0 j) /\
    snd r = fx0 ++ flat_map (fun i =>
                     EngineAdmin.emitStateChange e0 (Z.of_nat i) "empty"
                     ++ EngineAdmin.emitProgress e0 (Z.of_nat i) 0 0 100) (seq a k) /\
    SamplerEngine.padCount (fst r) = SamplerEngine.padCount e0 /\
    SamplerEngine.stateCallbacks (fst r) = SamplerEngine.stateCallbacks e0 /\
    SamplerEngine.progressCallbacks (fst r) = SamplerEngine.progressCallbacks e0 /\
    SamplerEngine.playCallbacks (fst r) = SamplerEngine.playCallbacks e0 /\
    SamplerEngine.hasAudioContext (fst r) = SamplerEngine.hasAudioContext e0 /\
    SamplerEngine.hasMasterGain (fst r) = SamplerEngine.hasMasterGain e0 /\
    SamplerEngine.volume (fst r) = SamplerEngine.volume e0.
Proof.
  induction k as [|k IH]; intros a e0 fx0; cbv zeta.
  - cbn [seq fold_left fst snd flat_map]. rewrite app_nil_r.
    split; [|repeat split].
    intros j. replace (j <? Z.of_nat (a + 0))%Z with (j <? Z.of_nat a)%Z
      by (f_equal; lia).
    destruct (Z.of_nat a <=? j)%Z eqn:E1; destruct (j <? Z.of_nat a)%Z eqn:E2;
      try reflexivity.
    apply Z.leb_le in E1. apply Z.ltb_lt in E2. lia.
  - set (e1 := SamplerEngine.with_samples e0
                 (EngineAdmin.arraySet (SamplerEngine.samples e0) a None)).
    set (fx1 := fx0 ++ EngineAdmin.emitStateChange e0 (Z.of_nat a) "empty"
                    ++ EngineAdmin.emitProgress e0 (Z.of_nat a) 0 0 100).
    change (fold_left EngineAdmin.clearAllStep (seq a (S k)) (e0, fx0))
      with (fold_left EngineAdmin.clearAllStep (seq (S a) k) (e1, fx1)).
    destruct (IH (S a) e1 fx1) as (Hs & Hfx & Hrest).
    split; [|split; [|exact Hrest]].
    + intros j. rewrite Hs. unfold e1. rewrite sampleAt_arraySet.
      destruct (j =? Z.of_nat a)%Z eqn:Ea.
      * apply Z.eqb_eq in Ea.
        replace (Z.of_nat a <=? j)%Z with true by (symmetry; apply Z.leb_le; lia).
        replace (j <? Z.of_nat (a + S k))%Z with true by (symmetry; apply Z.ltb_lt; lia).
        destruct ((Z.of_nat (S a) <=? j)%Z && (j <? Z.of_nat (S a + k))%Z); reflexivity.
      * apply Z.eqb_neq in Ea.
        replace (Z.of_nat (S a) <=? j)%Z with (Z.of_nat a <=? j)%Z.
        2:{ destruct (Z.of_nat a <=? j)%Z eqn:E1; symmetry.
            - apply Z.leb_le in E1. apply Z.leb_le. lia.
            - apply Z.leb_gt in E1. apply Z.leb_gt. lia. }
        replace (Z.of_nat (S a + k)) with (Z.of_nat (a + S k)) by lia.
        reflexivity.
    + rewrite Hfx. unfold fx1. cbn [seq flat_map]. rewrite <- !app_assoc.
      reflexivity.
Qed.

(** X21.  After [clearAll] every pad inside the range is empty, so that
    [playSound] cannot start a source on any index; slots outside the
    range, the pad count and the subscribers are untouched.  The events
    are, pad by pad in increasing order, one ['empty'] state event per
    state subscriber followed by one progress event of 0 per progress
    subscriber. *)
Theorem clearAll_empties_every_pad (e : SamplerEngine.t) :
  let e' := fst (EngineAdmin.clearAll e) in
  (forall j, (0 <= j < SamplerEngine.padCount e)%Z -> SamplerEngine.sampleAt e' j = None) /\
  (forall j, (j < 0)%Z \/ (SamplerEngine.padCount e <= j)%Z ->
             SamplerEngine.sampleAt e' j = SamplerEngine.sampleAt e j) /\
  SamplerEngine.padCount e' = SamplerEngine.padCount e /\
  SamplerEngine.playCallbacks e' = SamplerEngine.playCallbacks e /\
  snd (EngineAdmin.clearAll e) =
    flat_map (fun i => EngineAdmin.emitStateChange e (Z.of_nat i) "empty"
                       ++ EngineAdmin.emitProgress e (Z.of_nat i) 0 0 100)
             (seq 0 (Z.to_nat (SamplerEngine.padCount e))) /\
  (forall index fx,
     In fx (SamplerEngine.effects (SamplerEngine.playSound e' index)) ->
     is_audio_start fx = false /\ is_event fx = false).
Proof.
  intros e'.
  destruct (clearAll_fold (Z.to_nat (SamplerEngine.padCount e)) 0 e [])
    as (Hs & Hfx & Hpc & _ & _ & Hplay & _).
  fold (EngineAdmin.clearAll e) in Hs, Hfx, Hpc, Hplay. fold e' in Hs, Hpc, Hplay.
  assert (Hin : forall j, (0 <= j < SamplerEngine.padCount e)%Z ->
            SamplerEngine.sampleAt e' j = None).
  { intros j Hj. rewrite Hs.
    replace (Z.of_nat 0 <=? j)%Z with true by (symmetry; apply Z.leb_le; lia).
    replace (j <? Z.of_nat (0 + Z.to_nat (SamplerEngine.padCount e)))%Z with true
      by (symmetry; apply Z.ltb_lt; lia).
    reflexivity. }
  split; [exact Hin|]. split.
  { intros j Hj. rewrite Hs.
    destruct (Z.of_nat 0 <=? j)%Z eqn:E1;
      destruct (j <? Z.of_nat (0 + Z.to_nat (SamplerEngine.padCount e)))%Z eqn:E2;
      try reflexivity.
    apply Z.leb_le in E1. apply Z.ltb_lt in E2. lia. }
  split; [exact Hpc|]. split; [exact Hplay|]. split; [exact Hfx|].
  intros index fx. unfold SamplerEngine.playSound. rewrite Hpc.
  destruct ((index <? 0)%Z || (index >=? SamplerEngine.padCount e)%Z) eqn:Hrange.
  - intros [<-|[]]. split; reflexivity.
  - apply orb_false_elim in Hrange. destruct Hrange as [Hneg Hge].
    apply Z.ltb_ge in Hneg. rewrite Z.geb_leb in Hge. apply Z.leb_gt in Hge.
    rewrite (Hin index (conj Hneg Hge)).
    intros [<-|[]]. split; reflexivity.
Qed.

(** X22.  [clearSample] on an empty slot does nothing and emits nothing.
    On an occupied slot it empties that slot and no other, and emits one
    ['empty'] state event per state subscriber, then one progress event
    of 0 per progress subscriber. *)
Theorem clearSample_empties_one_pad (e : SamplerEngine.t) (index : Z) :
  (SamplerEngine.sampleAt e index = None -> EngineAdmin.clearSample e index = (e, [])) /\
  (forall s, SamplerEngine.sampleAt e index = Some s ->
     SamplerEngine.sampleAt (fst (EngineAdmin.clearSample e index)) index = None /\
     (forall j, j <> index ->
        SamplerEngine.sampleAt (fst (EngineAdmin.clearSample e index)) j
          = SamplerEngine.sampleAt e j) /\
     SamplerEngine.padCount (fst (EngineAdmin.clearSample e index))
       = SamplerEngine.padCount e /\
     snd (EngineAdmin.clearSample e index) =
       EngineAdmin.emitStateChange e index "empty"
       ++ EngineAdmin.emitProgress e index 0 0 100).
Proof.
  unfold EngineAdmin.clearSample. split.
  - intros ->. reflexivity.
  - intros s Hs. rewrite Hs. cbn [fst snd].
    assert (H0 : (0 <= index)%Z /\
                 (Z.to_nat index < length (SamplerEngine.samples e))%nat).
    { unfold SamplerEngine.sampleAt in Hs.
      destruct (index <? 0)%Z eqn:Hneg; [discriminate Hs|].
      apply Z.ltb_ge in Hneg. split; [exact Hneg|].
      destruct (SamplerEngine.samples e !! Z.to_nat index) eqn:El; [|discriminate Hs].
      eapply lookup_lt_Some. exact El. }
    destruct H0 as [H0 Hlen].
    split; [|split; [|split; reflexivity]].
    + rewrite (sampleAt_insert e (Z.to_nat index) None index Hlen).
      rewrite Z2Nat.id by exact H0. rewrite Z.eqb_refl. reflexivity.
    + intros j Hj.
      rewrite (sampleAt_insert e (Z.to_nat index) None j Hlen).
      rewrite Z2Nat.id by exact H0.
      replace (j =? index)%Z with false by (symmetry; apply Z.eqb_neq; exact Hj).
      reflexivity.
Qed.

(** X23.  [setVolume] stores the volume clamped to [[0, 1]]: the value
    itself when it is in range.  The master gain, when there is one,
    receives the stored value; nothing else of the engine changes. *)
Theorem setVolume_clamps (e : SamplerEngine.t) (v : Q) :
  let e' := fst (EngineAdmin.setVolume e v) in
  0 <= EngineAdmin.getVolume e' /\ EngineAdmin.getVolume e' <= 1 /\
  (0 <= v -> v <= 1 -> EngineAdmin.getVolume e' == v) /\
  (v <= 0 -> EngineAdmin.getVolume e' == 0) /\
  (1 <= v -> EngineAdmin.getVolume e' == 1) /\
  snd (EngineAdmin.setVolume e v) =
    (if SamplerEngine.hasMasterGain e then Some (EngineAdmin.getVolume e') else None) /\
  SamplerEngine.samples e' = SamplerEngine.samples e /\
  SamplerEngine.padCount e' = SamplerEngine.padCount e.
Proof.
  cbv zeta. unfold EngineAdmin.setVolume, EngineAdmin.getVolume, EngineAdmin.with_volume.
  cbn [fst snd SamplerEngine.volume SamplerEngine.hasMasterGain
       SamplerEngine.samples SamplerEngine.padCount].
  unfold Math.max, Math.min.
  split; [apply Q.le_max_l|].
  split; [apply Q.max_lub; [apply Qle_bool_iff; reflexivity|apply Q.le_min_l]|].
  split.
  { intros H0 H1. rewrite (Q.min_r 1 v H1). apply Q.max_r, H0. }
  split.
  { intros H0. apply Q.max_l. eapply Qle_trans; [apply Q.le_min_r|exact H0]. }
  split.
  { intros H1. rewrite (Q.min_l 1 v H1). apply Q.max_r.
    apply Qle_bool_iff. reflexivity. }
  repeat split.
Qed.

Lemma drawWave_bars_follow_peaks_witness :
  exists cmds,
    WaveformRender.drawWave Rounded.toGrid Cases.drawnWave true "#00ff88" 0 None
      = Some cmds /\
    length (WaveformRender.barsOf cmds) = 3%nat.
Proof.
  destruct (drawWave_bars_follow_peaks Rounded.toGrid Cases.drawnWave "#00ff88" 0
              toGrid_monotone)
    as (cmds & Hrun & Hlen & _).
  - reflexivity.
  - exact toGrid_idempotent.
  - discriminate.
  - intros p Hp. cbn in Hp.
    repeat (destruct Hp as [<-|Hp]; [apply Qle_bool_iff; reflexivity|]).
    destruct Hp.
  - exists cmds. split; [exact Hrun|exact Hlen].
Defined.

(** ** GUI: MIDI messages, pad clicks and the trim canvas *)

(** X24.  [handleMIDIMessage] acts only on a note-on of channel 1 (status
    144) with a velocity above 0, which it passes to [playByMidiNote] with
    the base note 36; every other message, and a message shorter than
    three bytes, changes nothing and has no effect. *)
Theorem handleMIDIMessage_note_on_only (g : SamplerGUI.t) (data : list Z) :
  ((forall command note velocity rest,
      data = command :: note :: velocity :: rest ->
      command <> 144%Z \/ (velocity <= 0)%Z) ->
   SamplerGUI.handleMIDIMessage g data =
     {| SamplerGUI.gui := g; SamplerGUI.effects := [];
        SamplerGUI.completion := Returned tt |}) /\
  (forall note velocity rest, (0 < velocity)%Z ->
     data = 144%Z :: note :: velocity :: rest ->
     SamplerGUI.handleMIDIMessage g data =
       let o := EngineAdmin.playByMidiNote (SamplerGUI.engine g) note 36 in
       {| SamplerGUI.gui := SamplerGUI.with_engine g (SamplerEngine.engine o);
          SamplerGUI.effects := map SamplerGUI.FromEngine (SamplerEngine.effects o);
          SamplerGUI.completion := SamplerEngine.completion o |}).
Proof.
  split.
  - intros H. unfold SamplerGUI.handleMIDIMessage.
    destruct data as [|command [|note [|velocity rest]]]; try reflexivity.
    destruct (H command note velocity rest eq_refl) as [Hc|Hv].
    + replace (command =? 144)%Z with false by (symmetry; apply Z.eqb_neq; exact Hc).
      reflexivity.
    + replace (velocity >? 0)%Z with false
        by (symmetry; rewrite Z.gtb_ltb; apply Z.ltb_ge; exact Hv).
      rewrite andb_false_r. reflexivity.
  - intros note velocity rest Hv ->. unfold SamplerGUI.handleMIDIMessage.
    replace (velocity >? 0)%Z with true
      by (symmetry; rewrite Z.gtb_ltb; apply Z.ltb_lt; exact Hv).
    reflexivity.
Qed.

Lemma handleMIDIMessage_note_on_only_witness :
  SamplerGUI.handleMIDIMessage Cases.editingKick [144%Z; 36%Z; 0%Z] =
    {| SamplerGUI.gui := Cases.editingKick; SamplerGUI.effects := [];
       SamplerGUI.completion := Returned tt |}.
Proof.
  destruct (handleMIDIMessage_note_on_only Cases.editingKick [144%Z; 36%Z; 0%Z])
    as [H _].
  apply H. intros command note velocity rest [= <- <- <- <-]. right. lia.
Defined.

Lemma orElse_cases (a b : Q) :
  (a == 0 /\ Utils.orElse a b = b) \/ (~ a == 0 /\ Utils.orElse a b = a).
Proof.
  unfold Utils.orElse. destruct (Qeq_bool a 0) eqn:E.
  - left. split; [apply Qeq_bool_iff, E|reflexivity].
  - right. split; [|reflexivity].
    intros H. apply Qeq_bool_iff in H. congruence.
Qed.

Lemma restored_positions_ordered (l r W : Q) :
  0 <= W -> 0 <= l -> l <= r -> r <= W ->
  0 <= Utils.orElse l 0 /\
  Utils.orElse l 0 <= Utils.orElse r W /\
  Utils.orElse r W <= W.
Proof.
  intros HW H0 Hlr Hr.
  destruct (orElse_cases l 0) as [[El ->]|[El ->]];
    destruct (orElse_cases r W) as [[Er ->]|[Er ->]].
  - repeat split; [apply Qle_refl|exact HW|apply Qle_refl].
  - repeat split; [apply Qle_refl| |exact Hr].
    eapply Qle_trans; [exact H0|exact Hlr].
  - exfalso. apply El. apply Qle_antisym; [|exact H0]. rewrite <- Er. exact Hlr.
  - repeat split; assumption.
Qed.

Lemma setupTrimBars_drawer (g : SamplerGUI.t) (s : SoundSample.t) :
  SamplerGUI.setupTrimBars g s =
    SamplerGUI.with_trimDrawer g
      (Some (TrimbarsDrawer.new (SamplerGUI.trimCanvas g)
               (Some (Utils.orElse (SoundSample.leftTrimPosition s) 0))
               (Some (Utils.orElse (SoundSample.rightTrimPosition s)
                        (N2Q (width (SamplerGUI.trimCanvas g))))))).
Proof. reflexivity. Qed.

(** X25.  [setupTrimBars] rebuilds the drawer on the trim canvas with both
    handles idle: neither handle is selected, neither is dragged, and
    both are white.  The left bar is where the sample stored it and so is
    the right bar, except that a stored right position of 0 is replaced
    by the canvas width.  Stored positions that are ordered inside the
    canvas give an ordered drawer. *)
Theorem setupTrimBars_restores (g : SamplerGUI.t) (s : SoundSample.t) :
  exists d,
    SamplerGUI.trimDrawer (SamplerGUI.setupTrimBars g s) = Some d /\
    canvas d = SamplerGUI.trimCanvas g /\
    selected (leftTrimBar d) = false /\ dragged (leftTrimBar d) = false /\
    selected (rightTrimBar d) = false /\ dragged (rightTrimBar d) = false /\
    color (leftTrimBar d) = white /\ color (rightTrimBar d) = white /\
    isDragging d = false /\ both_selected d = false /\
    x (leftTrimBar d) == SoundSample.leftTrimPosition s /\
    (~ SoundSample.rightTrimPosition s == 0 ->
     x (rightTrimBar d) = SoundSample.rightTrimPosition s) /\
    (SoundSample.rightTrimPosition s == 0 ->
     x (rightTrimBar d) = N2Q (width (SamplerGUI.trimCanvas g))) /\
    (SamplerGUI.positionsOk g s -> trim_inv d).
Proof.
  rewrite setupTrimBars_drawer.
  cbn [SamplerGUI.trimDrawer SamplerGUI.with_trimDrawer].
  eexists. split; [reflexivity|].
  unfold TrimbarsDrawer.new, isDragging, both_selected, trim_inv, cw,
    SamplerGUI.positionsOk.
  rsimpl.
  generalize (N2Q (width (SamplerGUI.trimCanvas g)))
             (N2Q_nonneg (width (SamplerGUI.trimCanvas g))).
  intros W HW.
  do 9 (split; [reflexivity|]).
  split; [|split; [|split]].
  - destruct (orElse_cases (SoundSample.leftTrimPosition s) 0) as [[El ->]|[El ->]];
      [symmetry; exact El|reflexivity].
  - intros Hn.
    destruct (orElse_cases (SoundSample.rightTrimPosition s) W) as [[Er ->]|[Er ->]];
      [exfalso; exact (Hn Er)|reflexivity].
  - intros Hz.
    destruct (orElse_cases (SoundSample.rightTrimPosition s) W) as [[Er ->]|[Er ->]];
      [reflexivity|exfalso; exact (Er Hz)].
  - intros (H0 & Hlr & Hr). apply restored_positions_ordered; assumption.
Qed.

Lemma playSound_engine (e : SamplerEngine.t) (index : Z) :
  SamplerEngine.engine (SamplerEngine.playSound e index) = e.
Proof.
  unfold SamplerEngine.playSound.
  destruct ((index <? 0)%Z || (index >=? SamplerEngine.padCount e)%Z); [reflexivity|].
  destruct (SamplerEngine.sampleAt e index) as [s|]; [|reflexivity].
  destruct (SoundSample.isLoaded s); [|reflexivity].
  destruct (SoundSample.play s (SamplerEngine.hasAudioContext e)
              (SamplerEngine.hasMasterGain e)) as [fx [r|ex]]; reflexivity.
Qed.

Lemma sampleAt_Some (e : SamplerEngine.t) (index : Z) (s : SoundSample.t) :
  SamplerEngine.sampleAt e index = Some s ->
  (0 <= index)%Z /\ SamplerEngine.samples e !! Z.to_nat index = Some (Some s).
Proof.
  unfold SamplerEngine.sampleAt.
  destruct (index <? 0)%Z eqn:Hneg; [discriminate|].
  apply Z.ltb_ge in Hneg.
  destruct (SamplerEngine.samples e !! Z.to_nat index) as [[s0|]|]; try discriminate.
  intros [= ->]. split; [exact Hneg|reflexivity].
Qed.

Lemma consistent_drawer (g : SamplerGUI.t) (d : option TrimbarsDrawer.t) :
  SamplerGUI.consistent g ->
  (forall d', d = Some d' ->
     canvas d' = SamplerGUI.trimCanvas g /\ trim_inv d') ->
  SamplerGUI.consistent (SamplerGUI.with_trimDrawer g d).
Proof.
  intros [_ Hs] Hd. split.
  - exact Hd.
  - exact Hs.
Qed.

Lemma switchToPad_consistent (g : SamplerGUI.t) (index : Z) :
  SamplerGUI.consistent g ->
  SamplerGUI.consistent (SamplerGUI.gui (SamplerGUI.switchToPad g index)).
Proof.
  intros Hg. unfold SamplerGUI.switchToPad, EngineAdmin.getSample.
  destruct (SamplerEngine.sampleAt (SamplerGUI.engine g) index) as [s|] eqn:Es;
    [|exact Hg].
  destruct (SoundSample.isLoaded s); [|exact Hg].
  assert (Hpos : SamplerGUI.positionsOk g s).
  { destruct (sampleAt_Some _ _ _ Es) as [_ Hl]. exact (proj2 Hg _ _ Hl). }
  assert (Hcleared : SamplerGUI.consistent
            (SamplerGUI.with_currentPadIndex (SamplerGUI.clearCanvases g) index)).
  { split; [intros d Hd; discriminate Hd|exact (proj2 Hg)]. }
  revert Hcleared.
  generalize (SamplerGUI.with_currentPadIndex (SamplerGUI.clearCanvases g) index)
    (eq_refl : SamplerGUI.trimCanvas
                 (SamplerGUI.with_currentPadIndex (SamplerGUI.clearCanvases g) index)
               = SamplerGUI.trimCanvas g).
  intros g1 Hc1 Hg1.
  assert (Hdraw : SamplerGUI.consistent (fst (SamplerGUI.drawWaveform g1 s)) /\
                  SamplerGUI.trimCanvas (fst (SamplerGUI.drawWaveform g1 s))
                    = SamplerGUI.trimCanvas g).
  { unfold SamplerGUI.drawWaveform.
    destruct (negb (SoundSample.isLoaded s)); [split; assumption|].
    destruct (SoundSample.decodedBuffer s) as [b|].
    - destruct (WaveformDrawer.init (SamplerGUI.waveformDrawer g1) b
                  (SamplerGUI.waveformCanvas g1) None);
        split; try assumption; exact Hg1.
    - split; [exact Hg1|exact Hc1]. }
  destruct (SamplerGUI.drawWaveform g1 s) as [g2 [r|ex]]; cbn [fst] in Hdraw;
    destruct Hdraw as [Hg2 Hc2]; [|exact Hg2].
  assert (Hsetup : SamplerGUI.consistent (SamplerGUI.setupTrimBars g2 s)).
  { rewrite setupTrimBars_drawer. apply consistent_drawer; [exact Hg2|].
    intros d' [= <-]. split; [reflexivity|].
    destruct Hpos as (H0 & Hlr & Hr). rewrite <- Hc2 in Hr.
    unfold trim_inv, cw, TrimbarsDrawer.new. rsimpl.
    apply restored_positions_ordered; try assumption. apply N2Q_nonneg. }
  destruct (SamplerGUI.updateInfo (SamplerGUI.setupTrimBars g2 s) (Some s)) as [fx c].
  exact Hsetup.
Qed.

Lemma updateTrimBars_samples (e : SamplerEngine.t) (index : Z) (l r w : Q) :
  SamplerEngine.engine (SamplerEngine.updateTrimBars e index l r w) = e \/
  exists s, SamplerEngine.sampleAt e index = Some s /\
            SoundSample.isLoaded s = true /\
            SamplerEngine.engine (SamplerEngine.updateTrimBars e index l r w) =
              SamplerEngine.with_samples e
                (<[Z.to_nat index := Some (SoundSample.setTrimPositions s l r w)]>
                   (SamplerEngine.samples e)).
Proof.
  unfold SamplerEngine.updateTrimBars.
  destruct (SamplerEngine.sampleAt e index) as [s|] eqn:Es; [|left; reflexivity].
  destruct (SoundSample.isLoaded s) eqn:El; [|left; reflexivity].
  right. exists s. split; [reflexivity|]. split; [exact El|reflexivity].
Qed.

Lemma onMouseUp_gui (g : SamplerGUI.t) (d : TrimbarsDrawer.t) :
  SamplerGUI.trimDrawer g = Some d ->
  SamplerGUI.gui (SamplerGUI.onMouseUp g) =
    SamplerGUI.with_engine (SamplerGUI.with_trimDrawer g (Some (stopDrag d)))
      (SamplerEngine.engine
         (SamplerEngine.updateTrimBars (SamplerGUI.engine g)
            (SamplerGUI.currentPadIndex g)
            (x (leftTrimBar (stopDrag d))) (x (rightTrimBar (stopDrag d)))
            (N2Q (width (SamplerGUI.trimCanvas g))))).
Proof.
  intros Hd. unfold SamplerGUI.onMouseUp. rewrite Hd.
  unfold getTrimPositions. cbv zeta.
  cbn [SamplerGUI.engine SamplerGUI.currentPadIndex SamplerGUI.trimCanvas
       SamplerGUI.with_trimDrawer SamplerGUI.with_engine].
  generalize (stopDrag d) as d'. intros d'.
  generalize (SamplerEngine.updateTrimBars (SamplerGUI.engine g)
                (SamplerGUI.currentPadIndex g) (x (leftTrimBar d'))
                (x (rightTrimBar d')) (N2Q (width (SamplerGUI.trimCanvas g)))) as o.
  intros o.
  destruct (EngineAdmin.getSample (SamplerEngine.engine o) (SamplerGUI.currentPadIndex g))
    as [s|]; [|reflexivity].
  match goal with
  | |- context [SamplerGUI.updateInfo ?a ?b] =>
      destruct (SamplerGUI.updateInfo a b) as [fx c]
  end.
  reflexivity.
Qed.

Lemma onMouseUp_consistent (g : SamplerGUI.t) :
  SamplerGUI.consistent g ->
  SamplerGUI.consistent (SamplerGUI.gui (SamplerGUI.onMouseUp g)).
Proof.
  intros Hg.
  destruct (SamplerGUI.trimDrawer g) as [d|] eqn:Hd.
  2:{ unfold SamplerGUI.onMouseUp. rewrite Hd. exact Hg. }
  rewrite (onMouseUp_gui g d Hd).
  destruct (proj1 Hg d Hd) as [Hcan Hinv].
  apply stopDrag_inv in Hinv.
  assert (Hcan' : canvas (stopDrag d) = SamplerGUI.trimCanvas g)
    by (rewrite stopDrag_canvas; exact Hcan).
  revert Hinv Hcan'. generalize (stopDrag d) as d'. intros d' Hinv Hcan'.
  split.
  - cbn [SamplerGUI.trimDrawer SamplerGUI.with_engine SamplerGUI.with_trimDrawer
         SamplerGUI.trimCanvas].
    intros d0 [= <-]. split; assumption.
  - cbn [SamplerGUI.engine SamplerGUI.with_engine].
    unfold SamplerGUI.positionsOk.
    cbn [SamplerGUI.trimCanvas SamplerGUI.with_engine SamplerGUI.with_trimDrawer].
    intros i s Hi.
    destruct (updateTrimBars_samples (SamplerGUI.engine g) (SamplerGUI.currentPadIndex g)
                (x (leftTrimBar d')) (x (rightTrimBar d'))
                (N2Q (width (SamplerGUI.trimCanvas g))))
      as [E|(s0 & Hs0 & _ & E)]; rewrite E in Hi.
    + exact (proj2 Hg i s Hi).
    + unfold SamplerEngine.with_samples in Hi. cbn [SamplerEngine.samples] in Hi.
      destruct (Nat.eq_dec i (Z.to_nat (SamplerGUI.currentPadIndex g))) as [->|Hne].
      * destruct (sampleAt_Some _ _ _ Hs0) as [_ Hl].
        rewrite list_lookup_insert_eq in Hi by (eapply lookup_lt_Some; exact Hl).
        injection Hi as <-.
        unfold SoundSample.setTrimPositions.
        cbn [SoundSample.leftTrimPosition SoundSample.rightTrimPosition].
        unfold trim_inv, cw in Hinv. rewrite Hcan' in Hinv. exact Hinv.
      * rewrite list_lookup_insert_ne in Hi by (intros E'; apply Hne; symmetry; exact E').
        exact (proj2 Hg i s Hi).
Qed.

(** X26.  Every handler of the GUI keeps the editor consistent: the trim
    drawer, when there is one, sits on the trim canvas and satisfies
    [0 <= leftPixel <= rightPixel <= surfaceWidth], and the pixel
    positions stored on every sample of the engine are ordered inside the
    canvas.  This holds also across pad switches, where the drawer is
    rebuilt from stored positions, and when a handler throws. *)
Theorem handle_keeps_consistent (g : SamplerGUI.t) (ev : SamplerGUI.Event) :
  SamplerGUI.consistent g ->
  SamplerGUI.consistent (SamplerGUI.gui (SamplerGUI.handle g ev)).
Proof.
  intros Hg. destruct ev as [rect e| | | |index|index]; cbn [SamplerGUI.handle].
  - unfold SamplerGUI.onMouseMove.
    destruct (SamplerGUI.trimDrawer g) as [d|] eqn:Hd; [|exact Hg].
    cbn [SamplerGUI.gui]. apply consistent_drawer; [exact Hg|].
    intros d' [= <-]. destruct (proj1 Hg d Hd) as [Hcan Hinv].
    split; [rewrite moveTrimBars_canvas; exact Hcan|apply moveTrimBars_inv, Hinv].
  - unfold SamplerGUI.onMouseDown.
    destruct (SamplerGUI.trimDrawer g) as [d|] eqn:Hd; [|exact Hg].
    cbn [SamplerGUI.gui]. apply consistent_drawer; [exact Hg|].
    intros d' [= <-]. destruct (proj1 Hg d Hd) as [Hcan Hinv].
    split; [rewrite startDrag_canvas; exact Hcan|apply startDrag_inv, Hinv].
  - apply onMouseUp_consistent, Hg.
  - unfold SamplerGUI.onMouseLeave.
    destruct (SamplerGUI.trimDrawer g) as [d|] eqn:Hd; [|exact Hg].
    cbn [SamplerGUI.gui]. apply consistent_drawer; [exact Hg|].
    intros d' [= <-]. destruct (proj1 Hg d Hd) as [Hcan Hinv].
    split; [rewrite stopDrag_canvas; exact Hcan|apply stopDrag_inv, Hinv].
  - apply switchToPad_consistent, Hg.
  - unfold SamplerGUI.handlePadClick, EngineAdmin.getSample.
    destruct (SamplerEngine.sampleAt (SamplerGUI.engine g) index) as [s|];
      [|exact Hg].
    destruct (SoundSample.isLoaded s); [|exact Hg].
    cbv zeta. rewrite playSound_engine.
    assert (Hsame : SamplerGUI.with_engine g (SamplerGUI.engine g) = g)
      by (destruct g; reflexivity).
    rewrite Hsame.
    destruct (SamplerEngine.completion (SamplerEngine.playSound (SamplerGUI.engine g) index));
      cbn [SamplerGUI.gui]; [apply switchToPad_consistent, Hg|exact Hg].
Qed.

Lemma editingKick_consistent : SamplerGUI.consistent Cases.editingKick.
Proof.
  split.
  - intros d Hd. change (Some Scenario.draggingLeft = Some d) in Hd.
    pose proof (f_equal (fun o : option TrimbarsDrawer.t =>
                           match o with Some v => v | None => d end) Hd) as E.
    cbv beta iota in E. subst d. clear Hd.
    split; [reflexivity|].
    unfold trim_inv. vm_compute. repeat split; discriminate.
  - intros i s Hs.
    assert (Hzero : SoundSample.leftTrimPosition s = 0 /\
                    SoundSample.rightTrimPosition s = 0).
    { do 16 (destruct i as [|i];
             [cbn in Hs; first [discriminate Hs
                               |injection Hs as <-; split; reflexivity]|]).
      cbn in Hs. discriminate Hs. }
    destruct Hzero as [El Er]. unfold SamplerGUI.positionsOk. rewrite El, Er.
    repeat split; apply Qle_bool_iff; reflexivity.
Qed.

Lemma handle_keeps_consistent_witness :
  SamplerGUI.consistent
    (SamplerGUI.gui (SamplerGUI.handle Cases.editingKick SamplerGUI.MouseUp)).
Proof.
  apply (handle_keeps_consistent Cases.editingKick SamplerGUI.MouseUp).
  exact editingKick_consistent.
Defined.

(** X27.  Releasing the mouse on the trim canvas of a consistent editor
    whose current pad is loaded stores on that pad the positions of the
    released drawer and the window computed from them: the start offset
    is [pixelToSeconds] of the left bar, and the start offset and the
    duration each lie between 0 and the buffer duration (bounds that the
    rounding of the operations keeps, by [rounded_window_bounds]).  The
    handler returns normally and the drawer is the released one. *)
Theorem mouseUp_stores_window
    (g : SamplerGUI.t) (d : TrimbarsDrawer.t) (s : SoundSample.t) (b : AudioBuffer.t) :
  SamplerGUI.consistent g ->
  SamplerGUI.trimDrawer g = Some d ->
  (0 <= SamplerGUI.currentPadIndex g)%Z ->
  SamplerEngine.samples (SamplerGUI.engine g) !! Z.to_nat (SamplerGUI.currentPadIndex g)
    = Some (Some s) ->
  SoundSample.loaded s = true ->
  SoundSample.decodedBuffer s = Some b ->
  0 <= AudioBuffer.duration b ->
  (0 < width (SamplerGUI.trimCanvas g))%N ->
  let o := SamplerGUI.onMouseUp g in
  SamplerGUI.completion o = Returned tt /\
  SamplerGUI.trimDrawer (SamplerGUI.gui o) = Some (stopDrag d) /\
  exists s',
    SamplerEngine.sampleAt (SamplerGUI.engine (SamplerGUI.gui o))
      (SamplerGUI.currentPadIndex g) = Some s' /\
    SoundSample.leftTrimPosition s' = x (leftTrimBar (stopDrag d)) /\
    SoundSample.rightTrimPosition s' = x (rightTrimBar (stopDrag d)) /\
    SoundSample.startOffset s' =
      pixelToSeconds (x (leftTrimBar (stopDrag d))) (AudioBuffer.duration b)
        (N2Q (width (SamplerGUI.trimCanvas g))) /\
    0 <= SoundSample.startOffset s' /\
    SoundSample.startOffset s' <= AudioBuffer.duration b /\
    0 <= SoundSample.duration s' /\
    SoundSample.duration s' <= AudioBuffer.duration b.
Proof.
  intros Hg Hd H0 Hs Hl Hb Hdur Hw o.
  destruct (proj1 Hg d Hd) as [Hcan Hinv].
  apply stopDrag_inv in Hinv.
  assert (Hcan' : canvas (stopDrag d) = SamplerGUI.trimCanvas g)
    by (rewrite stopDrag_canvas; exact Hcan).
  assert (HW : 0 < N2Q (width (SamplerGUI.trimCanvas g))).
  { unfold N2Q. change 0 with (inject_Z 0). rewrite <- Zlt_Qlt. lia. }
  unfold o, SamplerGUI.onMouseUp. rewrite Hd.
  unfold getTrimPositions. cbv zeta.
  cbn [SamplerGUI.engine SamplerGUI.currentPadIndex SamplerGUI.trimCanvas
       SamplerGUI.with_trimDrawer SamplerGUI.with_engine].
  unfold trim_inv, cw in Hinv. rewrite Hcan' in Hinv.
  revert Hinv. generalize (stopDrag d) as d'. intros d' (Hx0 & Hxlr & Hxr).
  set (W := N2Q (width (SamplerGUI.trimCanvas g))) in *.
  set (s' := SoundSample.setTrimPositions s (x (leftTrimBar d')) (x (rightTrimBar d')) W).
  assert (Hlen : (Z.to_nat (SamplerGUI.currentPadIndex g)
                  < length (SamplerEngine.samples (SamplerGUI.engine g)))%nat)
    by (eapply lookup_lt_Some; exact Hs).
  assert (Hup : SamplerEngine.updateTrimBars (SamplerGUI.engine g)
                  (SamplerGUI.currentPadIndex g)
                  (x (leftTrimBar d')) (x (rightTrimBar d')) W =
                {| SamplerEngine.engine :=
                     SamplerEngine.with_samples (SamplerGUI.engine g)
                       (<[Z.to_nat (SamplerGUI.currentPadIndex g) := Some s']>
                          (SamplerEngine.samples (SamplerGUI.engine g)));
                   SamplerEngine.effects :=
                     [ConsoleLog (MsgTrimUpdated (SamplerGUI.currentPadIndex g)
                        (SoundSample.startOffset s') (SoundSample.duration s')
                        (SoundSample.leftTrimPosition s')
                        (SoundSample.rightTrimPosition s'))];
                   SamplerEngine.completion := Returned tt |}).
  { unfold SamplerEngine.updateTrimBars.
    rewrite (sampleAt_lookup _ _ s H0 Hs).
    unfold SoundSample.isLoaded. rewrite Hl. reflexivity. }
  rewrite Hup. cbn [SamplerEngine.engine SamplerEngine.effects].
  assert (Hat : SamplerEngine.sampleAt
                  (SamplerEngine.with_samples (SamplerGUI.engine g)
                     (<[Z.to_nat (SamplerGUI.currentPadIndex g) := Some s']>
                        (SamplerEngine.samples (SamplerGUI.engine g))))
                  (SamplerGUI.currentPadIndex g) = Some s').
  { rewrite (sampleAt_insert _ _ (Some s') _ Hlen).
    rewrite Z2Nat.id by exact H0. rewrite Z.eqb_refl. reflexivity. }
  unfold EngineAdmin.getSample. rewrite Hat.
  assert (Hb' : SoundSample.decodedBuffer s' = Some b) by exact Hb.
  unfold SamplerGUI.updateInfo.
  cbn [SamplerGUI.hasInfoDisplay SamplerGUI.with_engine SamplerGUI.with_trimDrawer].
  rewrite Hb'.
  destruct (SamplerGUI.hasInfoDisplay g);
    cbn [negb SamplerGUI.completion SamplerGUI.gui SamplerGUI.trimDrawer
         SamplerGUI.engine];
    (split; [reflexivity|]); (split; [reflexivity|]);
    exists s'; (split; [exact Hat|]);
    (split; [reflexivity|]); (split; [reflexivity|]);
    destruct (setTrimPositions_seconds s b (x (leftTrimBar d')) (x (rightTrimBar d'))
                W Hb HW) as [Eo Ed];
    fold s' in Eo, Ed; rewrite Eo, Ed;
    destruct (rounded_window_bounds Rounded.exact
                (x (leftTrimBar d')) (x (rightTrimBar d'))
                (AudioBuffer.duration b) W exact_monotone
                (exact_representable 0) (exact_representable 1)
                (exact_representable W)
                (exact_representable (AudioBuffer.duration b))
                Hdur HW Hx0 Hxlr Hxr)
      as [[A B] [C D]];
    (split; [reflexivity|]); repeat split; assumption.
Qed.

Lemma mouseUp_stores_window_witness :
  SamplerGUI.completion (SamplerGUI.onMouseUp Cases.editingKick) = Returned tt /\
  exists s',
    SamplerEngine.sampleAt
      (SamplerGUI.engine (SamplerGUI.gui (SamplerGUI.onMouseUp Cases.editingKick))) 0
      = Some s' /\
    SoundSample.leftTrimPosition s' = 100 /\
    SoundSample.rightTrimPosition s' = 300.
Proof.
  assert (H0 : (0 <= SamplerGUI.currentPadIndex Cases.editingKick)%Z) by (cbn; lia).
  assert (Hd : 0 <= AudioBuffer.duration Scenario.fourSeconds)
    by (apply Qle_bool_iff; reflexivity).
  assert (Hw : (0 < width (SamplerGUI.trimCanvas Cases.editingKick))%N) by (cbn; lia).
  destruct (mouseUp_stores_window Cases.editingKick Scenario.draggingLeft
              Scenario.kick Scenario.fourSeconds editingKick_consistent
              eq_refl H0 eq_refl eq_refl eq_refl Hd Hw)
    as (Hc & _ & s' & Hat & Hl & Hr & _).
  split; [exact Hc|]. exists s'. split; [exact Hat|].
  split; [rewrite Hl|rewrite Hr]; vm_compute; reflexivity.
Defined.

(** X28.  When the current pad holds a sample that is not loaded and has
    no decoded buffer (a pad being reloaded while its trim bars are still
    shown), releasing the mouse releases the handles, stores nothing on
    the engine, and then throws a [TypeError] from the info panel update,
    which reads the duration of the missing buffer. *)
Theorem mouseUp_on_reloading_pad_throws
    (g : SamplerGUI.t) (d : TrimbarsDrawer.t) (s : SoundSample.t) :
  SamplerGUI.trimDrawer g = Some d ->
  SamplerGUI.hasInfoDisplay g = true ->
  (0 <= SamplerGUI.currentPadIndex g)%Z ->
  SamplerEngine.samples (SamplerGUI.engine g) !! Z.to_nat (SamplerGUI.currentPadIndex g)
    = Some (Some s) ->
  SoundSample.loaded s = false ->
  SoundSample.decodedBuffer s = None ->
  (exists what, SamplerGUI.completion (SamplerGUI.onMouseUp g) = Thrown (TypeError what)) /\
  SamplerGUI.effects (SamplerGUI.onMouseUp g) = [] /\
  SamplerGUI.engine (SamplerGUI.gui (SamplerGUI.onMouseUp g)) = SamplerGUI.engine g /\
  SamplerGUI.trimDrawer (SamplerGUI.gui (SamplerGUI.onMouseUp g)) = Some (stopDrag d).
Proof.
  intros Hd Hinfo H0 Hs Hl Hb.
  unfold SamplerGUI.onMouseUp. rewrite Hd.
  unfold getTrimPositions. cbv zeta.
  cbn [SamplerGUI.engine SamplerGUI.currentPadIndex SamplerGUI.trimCanvas
       SamplerGUI.with_trimDrawer SamplerGUI.with_engine].
  generalize (stopDrag d) as d'. intros d'.
  assert (Hup : SamplerEngine.updateTrimBars (SamplerGUI.engine g)
                  (SamplerGUI.currentPadIndex g)
                  (x (leftTrimBar d')) (x (rightTrimBar d'))
                  (N2Q (width (SamplerGUI.trimCanvas g))) =
                {| SamplerEngine.engine := SamplerGUI.engine g;
                   SamplerEngine.effects := [];
                   SamplerEngine.completion := Returned tt |}).
  { unfold SamplerEngine.updateTrimBars.
    rewrite (sampleAt_lookup _ _ s H0 Hs).
    unfold SoundSample.isLoaded. rewrite Hl. reflexivity. }
  rewrite Hup. cbn [SamplerEngine.engine SamplerEngine.effects map].
  unfold EngineAdmin.getSample. rewrite (sampleAt_lookup _ _ s H0 Hs).
  unfold SamplerGUI.updateInfo.
  cbn [SamplerGUI.hasInfoDisplay SamplerGUI.with_engine SamplerGUI.with_trimDrawer].
  rewrite Hinfo, Hb. cbn [negb app SamplerGUI.completion SamplerGUI.effects
                            SamplerGUI.gui SamplerGUI.engine SamplerGUI.trimDrawer].
  split; [eexists; reflexivity|]. repeat split.
Qed.

Lemma mouseUp_on_reloading_pad_throws_witness :
  exists what,
    SamplerGUI.completion (SamplerGUI.onMouseUp Cases.editingPending)
      = Thrown (TypeError what).
Proof.
  assert (H0 : (0 <= SamplerGUI.currentPadIndex Cases.editingPending)%Z) by (cbn; lia).
  destruct (mouseUp_on_reloading_pad_throws Cases.editingPending Scenario.draggingLeft
              Scenario.pendingSnare eq_refl eq_refl H0 eq_refl eq_refl eq_refl)
    as (H & _).
  exact H.
Defined.

(** X29.  On a pad that holds no sample, or a sample that is not loaded,
    a click does nothing at all, and [switchToPad] only warns: in both
    cases the editor keeps its state, nothing is played and the trim
    drawer is not replaced. *)
Theorem unloaded_pad_is_inert (g : SamplerGUI.t) (index : Z) :
  (forall s, SamplerEngine.sampleAt (SamplerGUI.engine g) index = Some s ->
             SoundSample.loaded s = false) ->
  SamplerGUI.handlePadClick g index =
    {| SamplerGUI.gui := g; SamplerGUI.effects := [];
       SamplerGUI.completion := Returned tt |} /\
  SamplerGUI.switchToPad g index =
    {| SamplerGUI.gui := g; SamplerGUI.effects := [SamplerGUI.WarnCannotSwitch index];
       SamplerGUI.completion := Returned tt |}.
Proof.
  intros H. unfold SamplerGUI.handlePadClick, SamplerGUI.switchToPad,
    EngineAdmin.getSample.
  destruct (SamplerEngine.sampleAt (SamplerGUI.engine g) index) as [s|];
    [|split; reflexivity].
  unfold SoundSample.isLoaded. rewrite (H s eq_refl). split; reflexivity.
Qed.

Lemma unloaded_pad_is_inert_witness :
  SamplerGUI.handlePadClick Cases.editingKick 1 =
    {| SamplerGUI.gui := Cases.editingKick; SamplerGUI.effects := [];
       SamplerGUI.completion := Returned tt |}.
Proof.
  destruct (unloaded_pad_is_inert Cases.editingKick 1) as [H _].
  - intros s Hs. vm_compute in Hs. injection Hs as <-. reflexivity.
  - exact H.
Defined.
